(** * kana-dojo: the Gauntlet session machine and its statistics store

    A shallow embedding of
      - [src/shared/components/Gauntlet/index.tsx] (the React component that
        drives one gauntlet session), and
      - [src/shared/lib/gauntletStats.ts] (the persistent statistics store),
    followed by the properties of the specification that were checked
    against them.

    Conventions.  A JavaScript [number] that holds a count, an index, a
    number of lives or a time in milliseconds is a [Z]; an array is a
    [list]; an object used as a dictionary is a [gmap string _]; a React
    state variable is a field of [State] and its setter [setX] takes the
    updater function ([setX (fun prev => ...)]; the value form [setX v] is
    [setX (fun _ => v)]).  A call that can throw returns an [Outcome]; a
    promise that has not settled is an entry of the world's [inflight]
    list, and its settlement is an event of its own. *)

Set Warnings "-register-all".
From Stdlib Require Import ZArith QArith.
From stdpp Require Import gmap strings list fin_maps pretty sorting.

Local Open Scope Z_scope.

(** ** JavaScript values: the drill items

    The component is generic in the item type [T]; all it does with an item
    is look at its shape ([typeof], [in]) and convert it with [String].  An
    item is therefore modelled as a JavaScript datum: a primitive, an array,
    or a plain object (as [JSON.parse] builds it: own data properties,
    prototype [Object.prototype]).  No property holds a function.  Numbers
    here are the integer-valued ones: [JsNumber n] is the Number that the
    literal [n] denotes, the double nearest to [n]. *)

Inductive JsValue : Type :=
  | JsUndefined
  | JsNull
  | JsBoolean (b : bool)
  | JsNumber (n : Z)
  | JsString (s : string)
  | JsArray (elems : list JsValue)
  | JsObject (props : list (string * JsValue)).

(** [typeof v === 'object' && v !== null] *)
Definition is_object (v : JsValue) : bool :=
  match v with
  | JsArray _ | JsObject _ => true
  | _ => false
  end.

(** [key in obj] for the keys the component asks about (none of them is an
    array index, ['length'], or a property of [Object.prototype] or
    [Array.prototype]). *)
Definition has_property (key : string) (v : JsValue) : bool :=
  match v with
  | JsObject props => bool_decide (key ∈ props.*1)
  | _ => false
  end.

(** The value of the member [key]; of two members of one name the later
    one is the property (so [JSON.parse] has it). *)
Definition assoc (key : string) (props : list (string * JsValue)) : JsValue :=
  foldl (λ found member, if decide (member.1 = key) then member.2 else found)
    JsUndefined props.

(** [obj.key] (or [obj[key]]); [undefined] when the property is absent. *)
Definition get_property (key : string) (v : JsValue) : JsValue :=
  match v with
  | JsObject props => assoc key props
  | _ => JsUndefined
  end.

(** How a call ends: it returns a value or it throws. *)
Inductive Outcome (A : Type) :=
  | Returned (value : A)
  | Thrown (error : string).
Arguments Returned {A} _.
Arguments Thrown {A} _.

(** ** Numbers as doubles *)

(** [round53 p = (q, sh)]: the positive integer [p] rounded to the nearest
    [q * 2^sh] with [q] of at most 53 bits. *)
Definition round53 (p : Z) : Z * Z :=
  let bits := Z.log2 p + 1 in
  if bits <=? 53 then (p, 0)
  else
    let sh := bits - 53 in
    let q := Z.shiftr p sh in
    let r := Z.land p (Z.ones sh) in
    let half := Z.shiftl 1 (sh - 1) in
    if (half <? r) || ((r =? half) && Z.odd q) then (q + 1, sh) else (q, sh).

(** The double nearest to the positive integer [p], ties to even; [None]
    is [Infinity] (from [2^1024 - 2^970] on). *)
Definition nearest_double (p : Z) : option Z :=
  let '(q, sh) := round53 p in
  let v := q * 2 ^ sh in
  if 2 ^ 1024 <=? v then None else Some v.

(** The digits of [Number::toString] for the positive integer-valued
    double [v]: the decimal [c = s * 10^e] with the fewest significant
    digits [s] among those that denote [v]; of two such, the one closer to
    [v] (the one with [s] even when they are as close). *)
Definition shortest_decimal (v : Z) : Z * Z :=
  let try (e : Z) : option Z :=
    let p := 10 ^ e in
    let lo := v / p * p in
    let hi := lo + p in
    let denotes c := (0 <? c) && bool_decide (nearest_double c = Some v) in
    match denotes lo, denotes hi with
    | true, true =>
        Some (if v - lo <? hi - v then lo
              else if hi - v <? v - lo then hi
              else if Z.even (lo / p) then lo else hi)
    | true, false => Some lo
    | false, true => Some hi
    | false, false => None
    end in
  foldl (λ found e, match try e with Some c => (c, e) | None => found end)
    (v, 0) (seqZ 0 (Z.of_nat (String.length (pretty v)) + 1)).

(** [String(n)] for a Number: up to 21 digits are written out (the
    significant ones, then zeros); from [1e21] on the exponent form is
    used. *)
Definition Number_toString (n : Z) : string :=
  if n =? 0 then "0"
  else
    let sign := if n <? 0 then "-" else "" in
    match nearest_double (Z.abs n) with
    | None => sign +:+ "Infinity"
    | Some v =>
        let '(c, e) := shortest_decimal v in
        let digits := pretty c in
        let n10 := Z.of_nat (String.length digits) in
        if n10 <=? 21 then sign +:+ digits
        else
          let exponent := "e+" +:+ pretty (n10 - 1) in
          match pretty (c / 10 ^ e) with
          | String d "" => sign +:+ String d "" +:+ exponent
          | String d rest => sign +:+ String d ("." +:+ rest) +:+ exponent
          | "" => sign +:+ exponent
          end
    end.

(** [String(v)].  An object is converted by [OrdinaryToPrimitive], which
    looks up [toString] first.  On a plain object without an own
    [toString] that is [Object.prototype.toString], which answers
    ["[object Object]"].  An own [toString] is not callable here, and then
    [valueOf] (own and not callable, or [Object.prototype.valueOf], which
    answers the object itself) yields no primitive either: a [TypeError]
    is thrown.  An array is converted by [Array.prototype.join], which
    prints [null] and [undefined] elements as the empty string and
    converts the others with [String]. *)
Fixpoint js_String (v : JsValue) : Outcome string :=
  match v with
  | JsUndefined => Returned "undefined"
  | JsNull => Returned "null"
  | JsBoolean b => Returned (if b then "true" else "false")
  | JsNumber n => Returned (Number_toString n)
  | JsString s => Returned s
  | JsArray elems =>
      (fix join (l : list JsValue) : Outcome string :=
         match l with
         | [] => Returned ""
         | x :: rest =>
             let sx := match x with
                       | JsUndefined | JsNull => Returned ""
                       | _ => js_String x
                       end in
             match sx, rest with
             | Thrown error, _ => Thrown error
             | Returned sx, [] => Returned sx
             | Returned sx, _ :: _ =>
                 match join rest with
                 | Thrown error => Thrown error
                 | Returned tail => Returned (sx +:+ "," +:+ tail)
                 end
             end
         end) elems
  | JsObject props =>
      if bool_decide ("toString" ∈ props.*1)
      then Thrown "TypeError: Cannot convert object to primitive value"
      else Returned "[object Object]"
  end.

(** ** The random source

    [const random = new Random()] of random-js.  The engine is an unknown
    stream of draws; [integer lo hi] consumes one draw and maps it into
    [lo..hi] (both ends included).  The component only calls it with
    [lo <= hi]. *)

Definition Random : Type := nat → nat.

Definition integer (lo hi : Z) (random : Random) : Z * Random :=
  (lo + Z.of_nat (random 0%nat) `mod` (hi - lo + 1), λ n, random (S n)).

(** ** [./types] *)

Inductive DojoType := kana | kanji | vocabulary.

Inductive GauntletGameMode := Pick | Type_.

#[global] Instance DojoType_eq_dec : EqDecision DojoType.
Proof. solve_decision. Defined.

#[global] Instance GauntletGameMode_eq_dec : EqDecision GauntletGameMode.
Proof. solve_decision. Defined.

(** A [GauntletDifficulty] is a string literal of a union declared in
    [./types]; so is the table [DIFFICULTY_CONFIG], of which the component
    reads the fields [lives] and [regenerates]. *)
Definition GauntletDifficulty : Type := string.

Module DifficultyConfig.
Record t := mk { lives : Z; regenerates : bool }.
End DifficultyConfig.

Record GauntletQuestion := mkQuestion {
  item : JsValue;
  index : Z;
  repetitionNumber : Z;
}.

(** ** [calculateRegenThreshold]

    [Math.max(5, Math.min(20, Math.ceil(totalQuestions * 0.1)))].  The
    product is a double-precision one: [0.1] is the double
    [3602879701896397 * 2^-55], and the exact product is rounded to 53
    significant bits, ties to even ([round53]), before [Math.ceil] sees
    it. *)

Definition tenth_mantissa : Z := 3602879701896397.
Definition tenth_exponent : Z := -55.

(** [Math.ceil(n * 0.1)] for an integer [n] (of magnitude below [2^53]). *)
Definition ceil_times_tenth (n : Z) : Z :=
  let '(q, sh) := round53 (Z.abs n * tenth_mantissa) in
  let e := sh + tenth_exponent in
  if 0 <=? e then Z.sgn n * (q * 2 ^ e)
  else if 0 <=? n then (q + 2 ^ (- e) - 1) / 2 ^ (- e)
  else - (q / 2 ^ (- e)).

Definition calculateRegenThreshold (totalQuestions : Z) : Z :=
  Z.max 5 (Z.min 20 (ceil_times_tenth totalQuestions)).

(** ** [generateQuestionQueue] *)

(** [[queue[i], queue[j]] = [queue[j], queue[i]]] *)
Definition swap {A} (i j : nat) (queue : list A) : list A :=
  match queue !! i, queue !! j with
  | Some qi, Some qj => <[j := qi]> (<[i := qj]> queue)
  | _, _ => queue
  end.

(** [for (let i = queue.length - 1; i > 0; i--)]: the loop entered with
    counter [i]. *)
Fixpoint fisher_yates {A} (i : nat) (queue : list A) (random : Random)
  : list A * Random :=
  match i with
  | O => (queue, random)
  | S i' =>
      let '(j, random) := integer 0 (Z.of_nat i) random in
      fisher_yates i' (swap i (Z.to_nat j) queue) random
  end.

Definition generateQuestionQueue (items : list JsValue) (repetitions : Z)
    (random : Random) : list GauntletQuestion * Random :=
  let queue :=
    items ≫= (λ item, (λ rep, mkQuestion item 0 rep) <$> seqZ 1 repetitions) in
  let '(queue, random) := fisher_yates (length queue - 1) queue random in
  (imap (λ i q, mkQuestion (item q) (Z.of_nat i) (repetitionNumber q)) queue,
   random).


(** The body of [generateQuestionQueue] has no [throw], and nothing it
    calls throws ([push], the swap of two entries that exist,
    [random.integer] with [min <= max]): a call of it returns. *)
Definition call_generateQuestionQueue (items : list JsValue) (repetitions : Z)
    (random : Random) : Outcome (list GauntletQuestion * Random) :=
  Returned (generateQuestionQueue items repetitions random).

(** ** [GauntletSessionStats] ([./types])

    The record built by [endGame].  [accuracy] and
    [averageTimePerQuestionMs] are quotients, kept exact here.  The record
    type of the source also has an [id]; [endGame] builds it without
    ([Omit<GauntletSessionStats, 'id'>]) and [saveSession] adds it, so the
    stored form is [Session] below. *)

Record CharacterStat := mkCharacterStat { correct : Z; wrong : Z }.

Module Stats.
Record t := mk {
  timestamp : Z;
  dojoType : DojoType;
  difficulty : GauntletDifficulty;
  gameMode : GauntletGameMode;
  totalQuestions : Z;
  correctAnswers : Z;
  wrongAnswers : Z;
  accuracy : Q;
  bestStreak : Z;
  currentStreak : Z;
  startingLives : Z;
  livesRemaining : Z;
  livesLost : Z;
  livesRegenerated : Z;
  totalTimeMs : Z;
  averageTimePerQuestionMs : Q;
  fastestAnswerMs : Z;
  slowestAnswerMs : Z;
  completed : bool;
  questionsCompleted : Z;
  characterStats : gmap string CharacterStat;
  totalCharacters : Z;
  repetitionsPerChar : Z;
  selectedSets : list string;
}.
End Stats.

Record Session := mkSession { id : string; stats : Stats.t }.

(** ** [src/shared/lib/gauntletStats.ts] *)

Module Totals.
(** [interface LifetimeTotals] *)
Record t := mk {
  totalSessions : Z;
  completedSessions : Z;
  totalCorrect : Z;
  totalWrong : Z;
  bestStreak : Z;
}.
End Totals.

(** An object with the three keys [kana], [kanji] and [vocabulary]. *)
Record PerDojo (A : Type) := mkPerDojo {
  of_kana : A;
  of_kanji : A;
  of_vocabulary : A;
}.
Arguments mkPerDojo {A} _ _ _.
Arguments of_kana {A} _.
Arguments of_kanji {A} _.
Arguments of_vocabulary {A} _.

(** [obj[dojoType]] *)
Definition at_dojo {A} (d : DojoType) (o : PerDojo A) : A :=
  match d with
  | kana => of_kana o
  | kanji => of_kanji o
  | vocabulary => of_vocabulary o
  end.

(** [obj[dojoType] = f(obj[dojoType])] *)
Definition update_dojo {A} (d : DojoType) (f : A → A) (o : PerDojo A)
  : PerDojo A :=
  match d with
  | kana => mkPerDojo (f (of_kana o)) (of_kanji o) (of_vocabulary o)
  | kanji => mkPerDojo (of_kana o) (f (of_kanji o)) (of_vocabulary o)
  | vocabulary => mkPerDojo (of_kana o) (of_kanji o) (f (of_vocabulary o))
  end.

(** [interface StoredGauntletData], as [loadData] hands it out. *)
Record StoredGauntletData := mkData {
  version : Z;
  sessions : list Session;
  bestTimes : PerDojo (gmap string Z);
  lifetimeTotals : PerDojo Totals.t;
}.

(** What sits under [STORAGE_KEY]: blobs written by older installs have no
    [lifetimeTotals]. *)
Record StoredBlob := mkBlob {
  blob_version : Z;
  blob_sessions : list Session;
  blob_bestTimes : PerDojo (gmap string Z);
  blob_lifetimeTotals : option (PerDojo Totals.t);
}.

Definition getDefaultLifetimeTotals : Totals.t := Totals.mk 0 0 0 0 0.

Definition getDefaultData : StoredGauntletData :=
  mkData 1 [] (mkPerDojo ∅ ∅ ∅)
    (mkPerDojo getDefaultLifetimeTotals getDefaultLifetimeTotals
       getDefaultLifetimeTotals).

Definition gameMode_string (m : GauntletGameMode) : string :=
  match m with Pick => "Pick" | Type_ => "Type" end.

(** [`${difficulty}-${repetitions}-${gameMode}-${totalCharacters}`] *)
Definition getBestTimeKey (difficulty : GauntletDifficulty) (repetitions : Z)
    (gameMode : GauntletGameMode) (totalCharacters : Z) : string :=
  difficulty +:+ "-" +:+ Number_toString repetitions +:+ "-"
    +:+ gameMode_string gameMode +:+ "-" +:+ Number_toString totalCharacters.

(** The five statements that fold one session into the totals of its dojo;
    [saveSession] and the migration of [loadData] have the same five. *)
Definition accumulate (s : Stats.t) (totals : Totals.t) : Totals.t :=
  Totals.mk
    (Totals.totalSessions totals + 1)
    (if Stats.completed s then Totals.completedSessions totals + 1
     else Totals.completedSessions totals)
    (Totals.totalCorrect totals + Stats.correctAnswers s)
    (Totals.totalWrong totals + Stats.wrongAnswers s)
    (Z.max (Totals.bestStreak totals) (Stats.bestStreak s)).

(** [for (const session of data.sessions) { ... }] of the migration. *)
Definition backfill (sessions : list Session) : PerDojo Totals.t :=
  foldl
    (λ totals session,
       update_dojo (Stats.dojoType (stats session))
         (accumulate (stats session)) totals)
    (mkPerDojo getDefaultLifetimeTotals getDefaultLifetimeTotals
       getDefaultLifetimeTotals)
    sessions.

(** [loadData], applied to what [localforage.getItem(STORAGE_KEY)] yields
    ([None] for [null]).  A failing read is not modelled: the store answers. *)
Definition loadData (stored : option StoredBlob) : StoredGauntletData :=
  match stored with
  | Some data =>
      if blob_version data =? 1 then
        match blob_lifetimeTotals data with
        | Some totals =>
            mkData (blob_version data) (blob_sessions data)
              (blob_bestTimes data) totals
        | None =>
            mkData (blob_version data) (blob_sessions data)
              (blob_bestTimes data) (backfill (blob_sessions data))
        end
      else getDefaultData
  | None => getDefaultData
  end.

(** [saveData]: what [localforage.setItem(STORAGE_KEY, data)] leaves. *)
Definition saveData (data : StoredGauntletData) : option StoredBlob :=
  Some (mkBlob (version data) (sessions data) (bestTimes data)
          (Some (lifetimeTotals data))).

(** [!currentBest] for [currentBest : number | undefined]: true when the key
    is absent and also when the stored number is [0]. *)
Definition js_not (currentBest : option Z) : bool :=
  match currentBest with
  | None => true
  | Some n => n =? 0
  end.

(** [saveSession(stats)], with the identifier that [generateSessionId]
    produced; returns the new content of the store and [isNewBest]
    ([saved] is the constant [true]). *)
Definition saveSession (sessionId : string) (s : Stats.t)
    (stored : option StoredBlob) : option StoredBlob * bool :=
  let data := loadData stored in
  let session := mkSession sessionId s in
  let totals := update_dojo (Stats.dojoType s) (accumulate s)
                  (lifetimeTotals data) in
  let unshifted := session :: sessions data in
  let sessions' :=
    if (100 <? length unshifted)%nat then take 100 unshifted
    else unshifted in
  let key := getBestTimeKey (Stats.difficulty s) (Stats.repetitionsPerChar s)
               (Stats.gameMode s) (Stats.totalCharacters s) in
  let currentBest := at_dojo (Stats.dojoType s) (bestTimes data) !! key in
  let isNewBest :=
    Stats.completed s
    && (js_not currentBest
        || match currentBest with
           | Some best => Stats.totalTimeMs s <? best
           | None => false
           end) in
  let bestTimes' :=
    if isNewBest then
      update_dojo (Stats.dojoType s) (λ m, <[key := Stats.totalTimeMs s]> m)
        (bestTimes data)
    else bestTimes data in
  (saveData (mkData (version data) sessions' bestTimes' totals), isNewBest).

(** [getBestTime]: [data.bestTimes[dojoType][key] ?? null] *)
Definition getBestTime (dojoType : DojoType) (difficulty : GauntletDifficulty)
    (repetitions : Z) (gameMode : GauntletGameMode) (totalCharacters : Z)
    (stored : option StoredBlob) : option Z :=
  at_dojo dojoType (bestTimes (loadData stored))
    !! getBestTimeKey difficulty repetitions gameMode totalCharacters.

(** [array.slice(0, end)]: a negative [end] counts from the end of the
    array. *)
Definition slice0 {A} (l : list A) (end_ : Z) : list A :=
  let len := Z.of_nat (length l) in
  take (Z.to_nat (if end_ <? 0 then Z.max (len + end_) 0 else Z.min end_ len))
    l.

(** [getSessionHistory] ([limit] defaults to 20) *)
Definition getSessionHistory (dojoType : DojoType) (limit : Z)
    (stored : option StoredBlob) : list Session :=
  slice0
    (filter (λ s, Stats.dojoType (stats s) = dojoType)
       (sessions (loadData stored)))
    limit.

(** [sessions.sort((a, b) => a.totalTimeMs - b.totalTimeMs)].
    [Array.prototype.sort] is stable: among sessions of equal time the
    order of the array is kept.  The insertion sort below is stable too (an
    entry goes in before the first one that is not faster), so it yields
    the same array. *)
Fixpoint insert_by_time (x : Session) (sorted : list Session)
  : list Session :=
  match sorted with
  | [] => [x]
  | y :: rest =>
      if Stats.totalTimeMs (stats x) <=? Stats.totalTimeMs (stats y)
      then x :: sorted
      else y :: insert_by_time x rest
  end.

Definition sort_by_time (l : list Session) : list Session :=
  foldr insert_by_time [] l.

(** [getLeaderboard] ([limit] defaults to 10); [difficulty] is optional,
    and [if (difficulty)] also skips the empty string. *)
Definition getLeaderboard (dojoType : DojoType)
    (difficulty : option GauntletDifficulty) (limit : Z)
    (stored : option StoredBlob) : list Session :=
  let data := loadData stored in
  let sessions :=
    filter (λ s, Stats.dojoType (stats s) = dojoType
                 ∧ Stats.completed (stats s) = true) (sessions data) in
  let sessions :=
    match difficulty with
    | Some d =>
        if decide (d = "") then sessions
        else filter (λ s, Stats.difficulty (stats s) = d) sessions
    | None => sessions
    end in
  slice0 (sort_by_time sessions) limit.

(** [getOverallStats]: the lifetime totals of the dojo, and the fastest
    completed run among the retained sessions. *)
Definition getOverallStats (dojoType : DojoType) (stored : option StoredBlob)
  : Totals.t * option Z :=
  let data := loadData stored in
  let completedSessions :=
    filter (λ s, Stats.dojoType (stats s) = dojoType
                 ∧ Stats.completed (stats s) = true) (sessions data) in
  (at_dojo dojoType (lifetimeTotals data),
   match completedSessions with
   | [] => None
   | s :: rest =>
       Some (foldr Z.min (Stats.totalTimeMs (stats s))
               ((λ s, Stats.totalTimeMs (stats s)) <$> rest))
   end).

(** [clearAllStats] *)
Definition clearAllStats (stored : option StoredBlob) : option StoredBlob :=
  None.

(** ** The world outside the component

    The module-level [random] engine, [Math.random] (as the stream of the
    base-36 suffixes that [generateSessionId] cuts out of it), the clock
    behind [Date.now()] (the stream of its successive readings), the
    content of [localforage] under [STORAGE_KEY], and the calls of
    [saveSession] that have not settled yet.

    [saveSession] is an [async] function with two suspension points.  A
    call first waits for [localforage.getItem] (its [await loadData()]);
    when that settles it builds the identifier and the new blob and waits
    for [localforage.setItem] (its [await saveData(data)]); when that
    settles it answers its caller.  Between the two, and before the first,
    the event loop delivers whatever else comes: other events of the
    component, steps of other calls in flight. *)

Inductive SaveInFlight :=
  | Loading (stats : Stats.t)
  | Saving (data : option StoredBlob) (isNewBest : bool).

Record World := mkWorld {
  random : Random;
  mathRandom : nat → string;
  clock : nat → Z;
  localforage : option StoredBlob;
  inflight : list SaveInFlight;
}.

Definition Date_now (w : World) : Z * World :=
  (clock w 0%nat,
   mkWorld (random w) (mathRandom w) (λ n, clock w (S n)) (localforage w)
     (inflight w)).

(** [`gauntlet-${Date.now()}-${Math.random().toString(36).substring(2, 9)}`] *)
Definition generateSessionId (w : World) : string * World :=
  let now := Date_now w in
  ("gauntlet-" +:+ Number_toString now.1 +:+ "-" +:+ mathRandom now.2 0%nat,
   mkWorld (random now.2) (λ n, mathRandom now.2 (S n)) (clock now.2)
     (localforage now.2) (inflight now.2)).

Definition setInflight (f : list SaveInFlight → list SaveInFlight)
    (w : World) : World :=
  mkWorld (random w) (mathRandom w) (clock w) (localforage w)
    (f (inflight w)).

(** [saveSession(stats)] is called: it runs up to [await loadData()] and
    hands back a promise. *)
Definition call_saveSession (stats : Stats.t) (w : World) : World :=
  setInflight (λ calls, calls ++ [Loading stats]) w.

(** The [k]-th call in flight takes its next step.  When its [getItem]
    settles, it reads the store, generates the identifier, builds the new
    blob and calls [setItem].  When its [setItem] settles, the blob is the
    content of the store and the call answers [{ saved: true, isNewBest }];
    the answer is the second component. *)
Definition settle (k : nat) (w : World) : World * option bool :=
  match inflight w !! k with
  | None => (w, None)
  | Some (Loading stats) =>
      let fresh := generateSessionId w in
      let saved := saveSession fresh.1 stats (localforage fresh.2) in
      (setInflight (λ calls, <[k := Saving saved.1 saved.2]> calls) fresh.2,
       None)
  | Some (Saving data isNewBest) =>
      (mkWorld (random w) (mathRandom w) (clock w) data
         (delete k (inflight w)),
       Some isNewBest)
  end.

(** ** The state of the component

    One field per [useState] of [Gauntlet] that takes part in the session
    ([lastAnswerTime] is the [useRef]).  The feedback flags
    ([lastAnswerCorrect], [lifeJustGained], [lifeJustLost]), the input state
    ([userAnswer], [shuffledOptions], [wrongSelectedAnswers]) and the sounds
    only feed the rendering and are left out. *)

Inductive Phase := pregame | playing | results.

#[global] Instance Phase_eq_dec : EqDecision Phase.
Proof. solve_decision. Defined.

Record State := mkState {
  gameMode : GauntletGameMode;
  difficulty : GauntletDifficulty;
  repetitions : Z;
  phase : Phase;
  questionQueue : list GauntletQuestion;
  currentIndex : Z;
  lives : Z;
  maxLives : Z;
  correctSinceLastRegen : Z;
  regenThreshold : Z;
  correctAnswers : Z;
  wrongAnswers : Z;
  currentStreak : Z;
  bestStreak : Z;
  livesRegenerated : Z;
  characterStats : gmap string CharacterStat;
  startTime : Z;
  answerTimes : list Z;
  lastAnswerTime : Z;
  sessionStats : option Stats.t;
  isNewBest : bool;
  hasAutoStarted : bool;
}.

(** The setters; each takes the updater. *)

Definition setGameMode (f : GauntletGameMode → GauntletGameMode)
    (s : State) : State :=
  mkState (f (gameMode s)) (difficulty s) (repetitions s) (phase s)
    (questionQueue s) (currentIndex s) (lives s) (maxLives s)
    (correctSinceLastRegen s) (regenThreshold s) (correctAnswers s)
    (wrongAnswers s) (currentStreak s) (bestStreak s) (livesRegenerated s)
    (characterStats s) (startTime s) (answerTimes s) (lastAnswerTime s)
    (sessionStats s) (isNewBest s) (hasAutoStarted s).

Definition setDifficulty (f : GauntletDifficulty → GauntletDifficulty)
    (s : State) : State :=
  mkState (gameMode s) (f (difficulty s)) (repetitions s) (phase s)
    (questionQueue s) (currentIndex s) (lives s) (maxLives s)
    (correctSinceLastRegen s) (regenThreshold s) (correctAnswers s)
    (wrongAnswers s) (currentStreak s) (bestStreak s) (livesRegenerated s)
    (characterStats s) (startTime s) (answerTimes s) (lastAnswerTime s)
    (sessionStats s) (isNewBest s) (hasAutoStarted s).

Definition setRepetitions (f : Z → Z) (s : State) : State :=
  mkState (gameMode s) (difficulty s) (f (repetitions s)) (phase s)
    (questionQueue s) (currentIndex s) (lives s) (maxLives s)
    (correctSinceLastRegen s) (regenThreshold s) (correctAnswers s)
    (wrongAnswers s) (currentStreak s) (bestStreak s) (livesRegenerated s)
    (characterStats s) (startTime s) (answerTimes s) (lastAnswerTime s)
    (sessionStats s) (isNewBest s) (hasAutoStarted s).

Definition setPhase (f : Phase → Phase) (s : State) : State :=
  mkState (gameMode s) (difficulty s) (repetitions s) (f (phase s))
    (questionQueue s) (currentIndex s) (lives s) (maxLives s)
    (correctSinceLastRegen s) (regenThreshold s) (correctAnswers s)
    (wrongAnswers s) (currentStreak s) (bestStreak s) (livesRegenerated s)
    (characterStats s) (startTime s) (answerTimes s) (lastAnswerTime s)
    (sessionStats s) (isNewBest s) (hasAutoStarted s).

Definition setQuestionQueue
    (f : list GauntletQuestion → list GauntletQuestion) (s : State) : State :=
  mkState (gameMode s) (difficulty s) (repetitions s) (phase s) (f
    (questionQueue s)) (currentIndex s) (lives s) (maxLives s)
    (correctSinceLastRegen s) (regenThreshold s) (correctAnswers s)
    (wrongAnswers s) (currentStreak s) (bestStreak s) (livesRegenerated s)
    (characterStats s) (startTime s) (answerTimes s) (lastAnswerTime s)
    (sessionStats s) (isNewBest s) (hasAutoStarted s).

Definition setCurrentIndex (f : Z → Z) (s : State) : State :=
  mkState (gameMode s) (difficulty s) (repetitions s) (phase s)
    (questionQueue s) (f (currentIndex s)) (lives s) (maxLives s)
    (correctSinceLastRegen s) (regenThreshold s) (correctAnswers s)
    (wrongAnswers s) (currentStreak s) (bestStreak s) (livesRegenerated s)
    (characterStats s) (startTime s) (answerTimes s) (lastAnswerTime s)
    (sessionStats s) (isNewBest s) (hasAutoStarted s).

Definition setLives (f : Z → Z) (s : State) : State :=
  mkState (gameMode s) (difficulty s) (repetitions s) (phase s)
    (questionQueue s) (currentIndex s) (f (lives s)) (maxLives s)
    (correctSinceLastRegen s) (regenThreshold s) (correctAnswers s)
    (wrongAnswers s) (currentStreak s) (bestStreak s) (livesRegenerated s)
    (characterStats s) (startTime s) (answerTimes s) (lastAnswerTime s)
    (sessionStats s) (isNewBest s) (hasAutoStarted s).

Definition setMaxLives (f : Z → Z) (s : State) : State :=
  mkState (gameMode s) (difficulty s) (repetitions s) (phase s)
    (questionQueue s) (currentIndex s) (lives s) (f (maxLives s))
    (correctSinceLastRegen s) (regenThreshold s) (correctAnswers s)
    (wrongAnswers s) (currentStreak s) (bestStreak s) (livesRegenerated s)
    (characterStats s) (startTime s) (answerTimes s) (lastAnswerTime s)
    (sessionStats s) (isNewBest s) (hasAutoStarted s).

Definition setCorrectSinceLastRegen (f : Z → Z) (s : State) : State :=
  mkState (gameMode s) (difficulty s) (repetitions s) (phase s)
    (questionQueue s) (currentIndex s) (lives s) (maxLives s) (f
    (correctSinceLastRegen s)) (regenThreshold s) (correctAnswers s)
    (wrongAnswers s) (currentStreak s) (bestStreak s) (livesRegenerated s)
    (characterStats s) (startTime s) (answerTimes s) (lastAnswerTime s)
    (sessionStats s) (isNewBest s) (hasAutoStarted s).

Definition setRegenThreshold (f : Z → Z) (s : State) : State :=
  mkState (gameMode s) (difficulty s) (repetitions s) (phase s)
    (questionQueue s) (currentIndex s) (lives s) (maxLives s)
    (correctSinceLastRegen s) (f (regenThreshold s)) (correctAnswers s)
    (wrongAnswers s) (currentStreak s) (bestStreak s) (livesRegenerated s)
    (characterStats s) (startTime s) (answerTimes s) (lastAnswerTime s)
    (sessionStats s) (isNewBest s) (hasAutoStarted s).

Definition setCorrectAnswers (f : Z → Z) (s : State) : State :=
  mkState (gameMode s) (difficulty s) (repetitions s) (phase s)
    (questionQueue s) (currentIndex s) (lives s) (maxLives s)
    (correctSinceLastRegen s) (regenThreshold s) (f (correctAnswers s))
    (wrongAnswers s) (currentStreak s) (bestStreak s) (livesRegenerated s)
    (characterStats s) (startTime s) (answerTimes s) (lastAnswerTime s)
    (sessionStats s) (isNewBest s) (hasAutoStarted s).

Definition setWrongAnswers (f : Z → Z) (s : State) : State :=
  mkState (gameMode s) (difficulty s) (repetitions s) (phase s)
    (questionQueue s) (currentIndex s) (lives s) (maxLives s)
    (correctSinceLastRegen s) (regenThreshold s) (correctAnswers s) (f
    (wrongAnswers s)) (currentStreak s) (bestStreak s) (livesRegenerated s)
    (characterStats s) (startTime s) (answerTimes s) (lastAnswerTime s)
    (sessionStats s) (isNewBest s) (hasAutoStarted s).

Definition setCurrentStreak (f : Z → Z) (s : State) : State :=
  mkState (gameMode s) (difficulty s) (repetitions s) (phase s)
    (questionQueue s) (currentIndex s) (lives s) (maxLives s)
    (correctSinceLastRegen s) (regenThreshold s) (correctAnswers s)
    (wrongAnswers s) (f (currentStreak s)) (bestStreak s) (livesRegenerated
    s) (characterStats s) (startTime s) (answerTimes s) (lastAnswerTime s)
    (sessionStats s) (isNewBest s) (hasAutoStarted s).

Definition setBestStreak (f : Z → Z) (s : State) : State :=
  mkState (gameMode s) (difficulty s) (repetitions s) (phase s)
    (questionQueue s) (currentIndex s) (lives s) (maxLives s)
    (correctSinceLastRegen s) (regenThreshold s) (correctAnswers s)
    (wrongAnswers s) (currentStreak s) (f (bestStreak s)) (livesRegenerated
    s) (characterStats s) (startTime s) (answerTimes s) (lastAnswerTime s)
    (sessionStats s) (isNewBest s) (hasAutoStarted s).

Definition setLivesRegenerated (f : Z → Z) (s : State) : State :=
  mkState (gameMode s) (difficulty s) (repetitions s) (phase s)
    (questionQueue s) (currentIndex s) (lives s) (maxLives s)
    (correctSinceLastRegen s) (regenThreshold s) (correctAnswers s)
    (wrongAnswers s) (currentStreak s) (bestStreak s) (f (livesRegenerated
    s)) (characterStats s) (startTime s) (answerTimes s) (lastAnswerTime s)
    (sessionStats s) (isNewBest s) (hasAutoStarted s).

Definition setCharacterStats
    (f : gmap string CharacterStat → gmap string CharacterStat) (s : State)
  : State :=
  mkState (gameMode s) (difficulty s) (repetitions s) (phase s)
    (questionQueue s) (currentIndex s) (lives s) (maxLives s)
    (correctSinceLastRegen s) (regenThreshold s) (correctAnswers s)
    (wrongAnswers s) (currentStreak s) (bestStreak s) (livesRegenerated s)
    (f (characterStats s)) (startTime s) (answerTimes s) (lastAnswerTime s)
    (sessionStats s) (isNewBest s) (hasAutoStarted s).

Definition setStartTime (f : Z → Z) (s : State) : State :=
  mkState (gameMode s) (difficulty s) (repetitions s) (phase s)
    (questionQueue s) (currentIndex s) (lives s) (maxLives s)
    (correctSinceLastRegen s) (regenThreshold s) (correctAnswers s)
    (wrongAnswers s) (currentStreak s) (bestStreak s) (livesRegenerated s)
    (characterStats s) (f (startTime s)) (answerTimes s) (lastAnswerTime s)
    (sessionStats s) (isNewBest s) (hasAutoStarted s).

Definition setAnswerTimes (f : list Z → list Z) (s : State) : State :=
  mkState (gameMode s) (difficulty s) (repetitions s) (phase s)
    (questionQueue s) (currentIndex s) (lives s) (maxLives s)
    (correctSinceLastRegen s) (regenThreshold s) (correctAnswers s)
    (wrongAnswers s) (currentStreak s) (bestStreak s) (livesRegenerated s)
    (characterStats s) (startTime s) (f (answerTimes s)) (lastAnswerTime s)
    (sessionStats s) (isNewBest s) (hasAutoStarted s).

Definition setLastAnswerTime (f : Z → Z) (s : State) : State :=
  mkState (gameMode s) (difficulty s) (repetitions s) (phase s)
    (questionQueue s) (currentIndex s) (lives s) (maxLives s)
    (correctSinceLastRegen s) (regenThreshold s) (correctAnswers s)
    (wrongAnswers s) (currentStreak s) (bestStreak s) (livesRegenerated s)
    (characterStats s) (startTime s) (answerTimes s) (f (lastAnswerTime s))
    (sessionStats s) (isNewBest s) (hasAutoStarted s).

Definition setSessionStats (f : option Stats.t → option Stats.t)
    (s : State) : State :=
  mkState (gameMode s) (difficulty s) (repetitions s) (phase s)
    (questionQueue s) (currentIndex s) (lives s) (maxLives s)
    (correctSinceLastRegen s) (regenThreshold s) (correctAnswers s)
    (wrongAnswers s) (currentStreak s) (bestStreak s) (livesRegenerated s)
    (characterStats s) (startTime s) (answerTimes s) (lastAnswerTime s) (f
    (sessionStats s)) (isNewBest s) (hasAutoStarted s).

Definition setIsNewBest (f : bool → bool) (s : State) : State :=
  mkState (gameMode s) (difficulty s) (repetitions s) (phase s)
    (questionQueue s) (currentIndex s) (lives s) (maxLives s)
    (correctSinceLastRegen s) (regenThreshold s) (correctAnswers s)
    (wrongAnswers s) (currentStreak s) (bestStreak s) (livesRegenerated s)
    (characterStats s) (startTime s) (answerTimes s) (lastAnswerTime s)
    (sessionStats s) (f (isNewBest s)) (hasAutoStarted s).

Definition setHasAutoStarted (f : bool → bool) (s : State) : State :=
  mkState (gameMode s) (difficulty s) (repetitions s) (phase s)
    (questionQueue s) (currentIndex s) (lives s) (maxLives s)
    (correctSinceLastRegen s) (regenThreshold s) (correctAnswers s)
    (wrongAnswers s) (currentStreak s) (bestStreak s) (livesRegenerated s)
    (characterStats s) (startTime s) (answerTimes s) (lastAnswerTime s)
    (sessionStats s) (isNewBest s) (f (hasAutoStarted s)).

Definition setRandom (r : Random) (w : World) : World :=
  mkWorld r (mathRandom w) (clock w) (localforage w) (inflight w).

(** [queue[i]]: [None] is [undefined]. *)
Definition entry {A} (queue : list A) (i : Z) : option A :=
  if i <? 0 then None else queue !! Z.to_nat i.

(** [queue.splice(start, 0, x)]: [start] is clamped to the array, a negative
    one counts from the end. *)
Definition splice {A} (queue : list A) (start : Z) (x : A) : list A :=
  let len := Z.of_nat (length queue) in
  let k := if start <? 0 then Z.max (len + start) 0 else Z.min start len in
  take (Z.to_nat k) queue ++ x :: drop (Z.to_nat k) queue.

(** [getItemId] *)
Definition getItemId (item : JsValue) : Outcome string :=
  if is_object item then
    if has_property "kana" item then js_String (get_property "kana" item)
    else if has_property "kanji" item then js_String (get_property "kanji" item)
    else if has_property "word" item then js_String (get_property "word" item)
    else if has_property "id" item then js_String (get_property "id" item)
    else js_String item
  else js_String item.

(** [prev[charId]?.correct || 0] and [prev[charId]?.wrong || 0] *)
Definition correct_of (prev : gmap string CharacterStat) (charId : string)
  : Z :=
  match prev !! charId with Some st => correct st | None => 0 end.

Definition wrong_of (prev : gmap string CharacterStat) (charId : string)
  : Z :=
  match prev !! charId with Some st => wrong st | None => 0 end.

(** The updater that [advanceToNextQuestion] hands to [setQuestionQueue]
    after a wrong answer; it draws from [random].  [submitAnswer] has
    returned before when there is no entry at [currentIndex], so the copy
    [{ ...newQueue[currentIndex] }] always has an entry to copy. *)
Definition requeue (currentIndex maxQueueSize : Z)
    (prev : list GauntletQuestion) (random : Random)
  : list GauntletQuestion * Random :=
  if maxQueueSize <=? Z.of_nat (length prev) then (prev, random)
  else
    match entry prev currentIndex with
    | None => (prev, random)
    | Some failedQuestion =>
        let remainingLength := Z.of_nat (length prev) - (currentIndex + 1) in
        let insertOffset :=
          if 0 <? remainingLength
          then integer 1 (Z.max 1 (Z.min remainingLength 5)) random
          else (1, random) in
        let insertPos := currentIndex + insertOffset.1 in
        (splice prev insertPos failedQuestion, insertOffset.2)
    end.

(** What the component is given: the table [DIFFICULTY_CONFIG] of
    [./types]; the props ([config]: [dojoType], [items], [selectedSets]);
    whether the path is a gauntlet route; and what the settings store
    remembers of the difficulty and the repetitions. *)
Class GauntletProps := mkProps {
  DIFFICULTY_CONFIG : GauntletDifficulty → DifficultyConfig.t;
  dojoType : DojoType;
  items : list JsValue;
  selectedSets : list string;
  isGauntletRoute : bool;
  storedDifficulty : GauntletDifficulty;
  storedRepetitions : Z;
}.

Section Gauntlet.

Context {props : GauntletProps}.

(** The initial values of the [useState] calls. *)
Definition initialState : State :=
  mkState Pick storedDifficulty storedRepetitions pregame
    [] 0 3 3 0 10
    0 0 0 0 0 ∅
    0 [] 0
    None false false.

Definition totalQuestions (s : State) : Z :=
  Z.of_nat (length items) * repetitions s.

Definition currentQuestion (s : State) : option GauntletQuestion :=
  entry (questionQueue s) (currentIndex s).

(** [handleStart] *)
Definition handleStart (w : World) (s : State) : World * State :=
  let generated := generateQuestionQueue items (repetitions s) (random w) in
  let queue := generated.1 in
  let diffConfig := DIFFICULTY_CONFIG (difficulty s) in
  let threshold := calculateRegenThreshold (Z.of_nat (length queue)) in
  let s := setQuestionQueue (λ _, queue) s in
  let s := setCurrentIndex (λ _, 0) s in
  let s := setLives (λ _, DifficultyConfig.lives diffConfig) s in
  let s := setMaxLives (λ _, DifficultyConfig.lives diffConfig) s in
  let s := setCorrectSinceLastRegen (λ _, 0) s in
  let s := setRegenThreshold (λ _, threshold) s in
  let s := setCorrectAnswers (λ _, 0) s in
  let s := setWrongAnswers (λ _, 0) s in
  let s := setCurrentStreak (λ _, 0) s in
  let s := setBestStreak (λ _, 0) s in
  let s := setLivesRegenerated (λ _, 0) s in
  let s := setCharacterStats (λ _, ∅) s in
  let now := Date_now (setRandom generated.2 w) in
  let s := setStartTime (λ _, now.1) s in
  let s := setAnswerTimes (λ _, []) s in
  let s := setLastAnswerTime (λ _, now.1) s in
  (now.2, setPhase (λ _, playing) s).

(** [endGame] is the closure of the last render: where the source reads a
    state variable, the value is that of the snapshot [c], not of the updates
    queued since; the final figures come in as arguments.

    First its [const stats = { ... }], given the two clock readings. *)
Definition endGame_stats (c : State) (completed : bool)
    (actualLives actualCorrectAnswers actualWrongAnswers
     actualQuestionsCompleted : Z) (totalTimeMs timestamp : Z) : Stats.t :=
  let validAnswerTimes := filter (λ t, 0 < t) (answerTimes c) in
  let answered := actualCorrectAnswers + actualWrongAnswers in
  let count := Z.of_nat (length validAnswerTimes) in
  Stats.mk timestamp dojoType (difficulty c) (gameMode c) (totalQuestions c)
    actualCorrectAnswers actualWrongAnswers
    (if 0 <? answered
     then (inject_Z actualCorrectAnswers / inject_Z answered)%Q
     else 0%Q)
    (bestStreak c) (currentStreak c) (maxLives c) actualLives
    (maxLives c - actualLives + livesRegenerated c) (livesRegenerated c)
    totalTimeMs
    (if 0 <? count
     then (inject_Z (foldl Z.add 0%Z validAnswerTimes) / inject_Z count)%Q
     else 0%Q)
    (match validAnswerTimes with [] => 0 | t :: ts => foldl Z.min t ts end)
    (match validAnswerTimes with [] => 0 | t :: ts => foldl Z.max t ts end)
    completed actualQuestionsCompleted (characterStats c)
    (Z.of_nat (length items)) (repetitions c) selectedSets.

(** [endGame] up to its [await]: the result is built and shown to
    [setSessionStats], and [saveSession] is called. *)
Definition endGame (c : State) (completed : bool)
    (actualLives actualCorrectAnswers actualWrongAnswers
     actualQuestionsCompleted : Z) (w : World) (s : State) : World * State :=
  let t1 := Date_now w in
  let totalTimeMs := t1.1 - startTime c in
  let t2 := Date_now t1.2 in
  let stats :=
    endGame_stats c completed actualLives actualCorrectAnswers
      actualWrongAnswers actualQuestionsCompleted totalTimeMs t2.1 in
  let s := setSessionStats (λ _, Some stats) s in
  (call_saveSession stats t2.2, s).

(** [endGame] from its [await] on, once [saveSession] has answered
    [newBest]. *)
Definition endGame_resumed (newBest : bool) (s : State) : State :=
  let s := setIsNewBest (λ _, newBest) s in
  setPhase (λ _, results) s.

(** [recordAnswerTime] *)
Definition recordAnswerTime (w : World) (s : State) : World * State :=
  let now := Date_now w in
  let s :=
    if 0 <? lastAnswerTime s then
      let timeTaken := now.1 - lastAnswerTime s in
      if 0 <? timeTaken then setAnswerTimes (λ prev, prev ++ [timeTaken]) s
      else s
    else s in
  (now.2, setLastAnswerTime (λ _, now.1) s).

(** [advanceToNextQuestion], the closure of the snapshot [c]. *)
Definition advanceToNextQuestion (c : State) (newLives : Z) (wasCorrect : bool)
    (newCorrectAnswers newWrongAnswers questionsCompleted : Z)
    (w : World) (s : State) : World * State :=
  if newLives <=? 0 then
    endGame c false newLives newCorrectAnswers newWrongAnswers
      questionsCompleted w s
  else if wasCorrect then
    if totalQuestions c <=? newCorrectAnswers then
      endGame c true newLives newCorrectAnswers newWrongAnswers
        questionsCompleted w s
    else (w, setCurrentIndex (λ prev, prev + 1) s)
  else
    let maxQueueSize := totalQuestions c * 3 in
    let requeued :=
      requeue (currentIndex c) maxQueueSize (questionQueue s) (random w) in
    let s := setQuestionQueue (λ _, requeued.1) s in
    (setRandom requeued.2 w, setCurrentIndex (λ prev, prev + 1) s).

(** [submitAnswer], called in the render whose state is [s]: the values it
    closes over are those of [s].  Where [getItemId] throws, the error
    leaves the handler; the updates queued before it stay. *)
Definition submitAnswer (isCorrect : bool) (w : World) (s : State)
  : World * State :=
  let c := s in
  match currentQuestion c with
  | None => (w, s)
  | Some question =>
      let recorded := recordAnswerTime w s in
      let w := recorded.1 in
      let s := recorded.2 in
      if isCorrect then
        let s := setCorrectAnswers (λ prev, prev + 1) s in
        let newStreak := currentStreak s + 1 in
        let s := setCurrentStreak (λ _, newStreak) s in
        let s :=
          if bestStreak c <? newStreak then setBestStreak (λ _, newStreak) s
          else s in
        match getItemId (item question) with
        | Thrown _ => (w, s)
        | Returned charId =>
            let s :=
              setCharacterStats
                (λ prev,
                   <[charId := mkCharacterStat (correct_of prev charId + 1)
                                 (wrong_of prev charId)]> prev) s in
            let newCorrectAnswers := correctAnswers c + 1 in
            let questionsCompleted := currentIndex c + 1 in
            let canRegen :=
              DifficultyConfig.regenerates
                (DIFFICULTY_CONFIG (difficulty c)) in
            let s :=
              if canRegen && (lives c <? maxLives c) then
                let newCorrectSinceRegen := correctSinceLastRegen c + 1 in
                if regenThreshold c <=? newCorrectSinceRegen then
                  let s :=
                    setLives (λ prev, Z.min (prev + 1) (maxLives c)) s in
                  let s := setCorrectSinceLastRegen (λ _, 0) s in
                  setLivesRegenerated (λ prev, prev + 1) s
                else setCorrectSinceLastRegen (λ _, newCorrectSinceRegen) s
              else s in
            advanceToNextQuestion c (lives c) true newCorrectAnswers
              (wrongAnswers c) questionsCompleted w s
        end
      else
        let s := setWrongAnswers (λ prev, prev + 1) s in
        let s := setCurrentStreak (λ _, 0) s in
        let s := setCorrectSinceLastRegen (λ _, 0) s in
        match getItemId (item question) with
        | Thrown _ => (w, s)
        | Returned charId =>
            let s :=
              setCharacterStats
                (λ prev,
                   <[charId := mkCharacterStat (correct_of prev charId)
                                 (wrong_of prev charId + 1)]> prev) s in
            let newLives := lives c - 1 in
            let newWrongAnswers := wrongAnswers c + 1 in
            let questionsCompletedOnWrong := currentIndex c + 1 in
            let s := setLives (λ _, newLives) s in
            advanceToNextQuestion c newLives false (correctAnswers c)
              newWrongAnswers questionsCompletedOnWrong w s
        end
  end.

(** [questionKey]: [`${getItemId(currentQuestion.item)}-${currentQuestion.index}`],
    computed in the body of the component at every render. *)
Definition questionKey (s : State) : Outcome string :=
  match currentQuestion s with
  | Some question =>
      match getItemId (item question) with
      | Returned charId =>
          Returned (charId +:+ "-" +:+ Number_toString (index question))
      | Thrown error => Thrown error
      end
  | None => Returned ""
  end.

(** [handleCancel]: on a gauntlet route the router leaves the page and the
    state is left as it is; otherwise back to the pre-game screen. *)
Definition handleCancel (w : World) (s : State) : World * State :=
  if isGauntletRoute then (w, s) else (w, setPhase (λ _, pregame) s).

(** *** What is on screen, and the events it lets in *)

Inductive Screen :=
  | RenderError | EmptyState | PreGameScreen | ResultsScreen | ActiveGame.

#[global] Instance Screen_eq_dec : EqDecision Screen.
Proof. solve_decision. Defined.

(** The render: [questionKey] is computed before the [return] statements
    of the component body are reached (the caller supplies
    [getCorrectOption]).  When it throws, the render throws: nothing of the
    component is on screen, and React unmounts it. *)
Definition screen (s : State) : Screen :=
  match questionKey s with
  | Thrown _ => RenderError
  | Returned _ =>
      match items with
      | [] => EmptyState
      | _ :: _ =>
          match phase s, sessionStats s with
          | pregame, _ => PreGameScreen
          | results, Some _ => ResultsScreen
          | _, _ => ActiveGame
          end
      end
  end.

Inductive Event :=
  | AutoStart                          (* the auto-start effect fires *)
  | OnStart                            (* PreGameScreen [onStart] *)
  | SetGameMode (mode : GauntletGameMode)
  | SetDifficulty (diff : GauntletDifficulty)
  | SetRepetitions (reps : Z)
  | OnSubmit (isCorrect : bool)        (* ActiveGame [onSubmit] *)
  | OnCancel                           (* ActiveGame [onCancel] *)
  | OnRestart                          (* ResultsScreen [onRestart] *)
  | OnChangeSettings                   (* ResultsScreen [onChangeSettings] *)
  | Settled (k : nat).                 (* a promise of [localforage] settles
                                          for the [k]-th save in flight *)

(** One event, handled to the end, followed by the re-render.  An event of
    the screen reaches its handler only on that screen.  A settlement
    comes whatever is on screen; when it makes [saveSession] answer,
    [endGame] resumes, unless the component is unmounted, where its
    setters do nothing. *)
Definition step (e : Event) (ws : World * State) : World * State :=
  let w := ws.1 in
  let s := ws.2 in
  match e, screen s with
  | Settled k, on_screen =>
      let settled := settle k w in
      match settled.2, on_screen with
      | None, _ | Some _, RenderError => (settled.1, s)
      | Some newBest, _ => (settled.1, endGame_resumed newBest s)
      end
  | AutoStart, PreGameScreen =>
      if isGauntletRoute && negb (hasAutoStarted s)
      then handleStart w (setHasAutoStarted (λ _, true) s)
      else ws
  | OnStart, PreGameScreen => handleStart w s
  | SetGameMode mode, PreGameScreen => (w, setGameMode (λ _, mode) s)
  | SetDifficulty diff, PreGameScreen => (w, setDifficulty (λ _, diff) s)
  | SetRepetitions reps, PreGameScreen => (w, setRepetitions (λ _, reps) s)
  | OnSubmit isCorrect, ActiveGame => submitAnswer isCorrect w s
  | OnCancel, ActiveGame => handleCancel w s
  | OnRestart, ResultsScreen => handleStart w s
  | OnChangeSettings, ResultsScreen => (w, setPhase (λ _, pregame) s)
  | _, _ => ws
  end.

(** The events of a list, oldest first. *)
Definition run (events : list Event) (ws : World * State) : World * State :=
  foldl (λ ws e, step e ws) ws events.

End Gauntlet.

(** ** [GauntletKanji]: the configuration of the kanji gauntlet

    The component that follows the store in the same source file.  Its
    items are the [IKanjiObj] of the kanji store, of which it reads the
    fields below; [meanings[0]] is [undefined] for an empty array, so an
    option text is an [option string].  [shuffle] (of [@/shared/lib/shuffle])
    and the string methods [toLowerCase], [trim] and [k.split(' ')[0]] are
    taken as they come. *)

Module GauntletKanji.

Record IKanjiObj := mkKanji {
  kanjiChar : string;
  meanings : list string;
  kunyomi : list string;
  onyomi : list string;
}.

(** The two chained [filter] calls of [generateOptions]: an item passes
    when its text is not in [seen], and its text is then added to [seen]. *)
Fixpoint filter_unseen {A} (text : A → option string)
    (seen : list (option string)) (l : list A) : list A :=
  match l with
  | [] => []
  | x :: rest =>
      if decide (text x ∈ seen) then filter_unseen text seen rest
      else x :: filter_unseen text (text x :: seen) rest
  end.

Section Config.

Variable shuffle : list IKanjiObj → list IKanjiObj.
Variable toLowerCase : string → string.
Variable trim : string → string.
Variable first_word : string → string.

(** [renderQuestion] *)
Definition renderQuestion (question : IKanjiObj) (isReverse : bool)
  : option string :=
  if isReverse then head (meanings question) else Some (kanjiChar question).

(** [checkAnswer] *)
Definition checkAnswer (question : IKanjiObj) (answer : string)
    (isReverse : bool) : bool :=
  if isReverse then
    bool_decide (trim answer = kanjiChar question)
    || existsb (λ k, bool_decide (first_word k = answer)) (kunyomi question)
    || existsb (λ k, bool_decide (first_word k = answer)) (onyomi question)
  else
    existsb (λ meaning, bool_decide (toLowerCase answer = toLowerCase meaning))
      (meanings question).

(** [getCorrectAnswer] and [getCorrectOption] have the same body. *)
Definition getCorrectAnswer (question : IKanjiObj) (isReverse : bool)
  : option string :=
  if isReverse then Some (kanjiChar question) else head (meanings question).

Definition getCorrectOption (question : IKanjiObj) (isReverse : bool)
  : option string :=
  if isReverse then Some (kanjiChar question) else head (meanings question).

(** [generateOptions] *)
Definition generateOptions (question : IKanjiObj) (items : list IKanjiObj)
    (count : Z) (isReverse : bool) : list (option string) :=
  let text : IKanjiObj → option string :=
    if isReverse then λ item, Some (kanjiChar item)
    else λ item, head (meanings item) in
  let correctAnswer := text question in
  let incorrectOptions :=
    text <$>
      slice0
        (filter_unseen text [correctAnswer]
           (shuffle
              (filter (λ item, kanjiChar item ≠ kanjiChar question) items)))
        (count - 1) in
  correctAnswer :: incorrectOptions.

End Config.

End GauntletKanji.

(** * What the properties are stated with *)

(** ** Invariants of a session *)

(** [getItemId] returns for the item: it has an identifier. *)
Definition has_id (item : JsValue) : Prop :=
  match getItemId item with Returned _ => True | Thrown _ => False end.

(** The lives stay below their bound and the best streak above the
    current one; while playing the lives are not negative, unless a save
    is in flight (and the component still mounted). *)
Definition lives_streak_inv {props : GauntletProps} (ws : World * State)
  : Prop :=
  let s := ws.2 in
  lives s ≤ maxLives s
  ∧ 0 ≤ currentStreak s ≤ bestStreak s
  ∧ (phase s = playing →
     0 ≤ lives s ∨ (inflight ws.1 ≠ [] ∧ screen s ≠ RenderError)).


(** A result has been built whenever a save is in flight or the phase is
    [results]. *)
Definition result_inv (ws : World * State) : Prop :=
  (inflight ws.1 ≠ [] → is_Some (sessionStats ws.2))
  ∧ (phase ws.2 = results → is_Some (sessionStats ws.2)).

(** While playing, the lives missing plus the lives won back are the wrong
    answers; any result kept in [sessionStats] is consistent in itself. *)
Definition lives_lost_inv (ws : World * State) : Prop :=
  let s := ws.2 in
  result_inv ws
  ∧ (phase s = playing →
     maxLives s - lives s + livesRegenerated s = wrongAnswers s)
  ∧ (∀ st, sessionStats s = Some st →
       Stats.livesLost st
       = Stats.startingLives st - Stats.livesRemaining st
         + Stats.livesRegenerated st
       ∧ Stats.livesLost st = Stats.wrongAnswers st).


(** A plain object without any of the fields that [getItemId] looks for. *)
Definition lacks_id_fields (fields : list (string * JsValue)) : Prop :=
  has_property "kana" (JsObject fields) = false
  ∧ has_property "kanji" (JsObject fields) = false
  ∧ has_property "word" (JsObject fields) = false
  ∧ has_property "id" (JsObject fields) = false.


(** ** Sequences of saves *)

(** [saveSession] called for each [(id, stats)] of the list in turn, oldest
    first. *)
Definition saveAll (saves : list (string * Stats.t))
    (stored : option StoredBlob) : option StoredBlob :=
  foldl (λ stored save, (saveSession save.1 save.2 stored).1) stored saves.

(** The sum and the maximum (0 for none) of a list of numbers. *)
Definition Zsum (l : list Z) : Z := foldr Z.add 0 l.
Definition Zmax0 (l : list Z) : Z := foldr Z.max 0 l.

(** The totals of a dojo over every session of a list. *)
Definition running_totals (d : DojoType) (saved : list Stats.t) : Totals.t :=
  let mine := filter (λ s, Stats.dojoType s = d) saved in
  Totals.mk
    (Z.of_nat (length mine))
    (Z.of_nat (length (filter (λ s, Stats.completed s = true) mine)))
    (Zsum (Stats.correctAnswers <$> mine))
    (Zsum (Stats.wrongAnswers <$> mine))
    (Zmax0 (Stats.bestStreak <$> mine)).


(** The key of a session's best-time slot. *)
Definition key_of (s : Stats.t) : string :=
  getBestTimeKey (Stats.difficulty s) (Stats.repetitionsPerChar s)
    (Stats.gameMode s) (Stats.totalCharacters s).

(** The minimum of a list of times; [None] for none. *)
Definition min_time (times : list Z) : option Z :=
  foldl (λ best t, Some (match best with Some b => Z.min b t | None => t end))
    None times.

(** The least [totalTimeMs] among the completed sessions of a dojo and a
    key. *)
Definition fastest (d : DojoType) (key : string) (saved : list Stats.t)
  : option Z :=
  min_time
    (Stats.totalTimeMs
       <$> filter (λ s, Stats.completed s = true ∧ Stats.dojoType s = d
                        ∧ key_of s = key) saved).

(** A completed kana run with the given total time. *)
Definition kana_run (totalTimeMs : Z) : Stats.t :=
  Stats.mk 0 kana "normal" Pick 1 1 0 1%Q 1 1 3 3 0 0 totalTimeMs 0%Q 0 0
    true 1 ∅ 1 1 [].


(** ** Concrete inputs *)

Definition three_lives : GauntletDifficulty → DifficultyConfig.t :=
  λ _, DifficultyConfig.mk 3 true.

Definition some_world : World :=
  mkWorld (λ n, n) (λ _, "k3x9q1z") (λ n, 1000 + Z.of_nat n) None [].

Definition abc : list JsValue := [JsString "a"; JsString "b"; JsString "c"].

Definition abc_queue : list GauntletQuestion :=
  [mkQuestion (JsString "a") 0 1; mkQuestion (JsString "b") 1 1;
   mkQuestion (JsString "c") 2 1].

(** The props of a kana gauntlet over the given items, off the gauntlet
    route, with ["normal"] and one repetition remembered. *)
Definition kana_props (items : list JsValue) : GauntletProps :=
  mkProps three_lives kana items [] false "normal" 1.

(** Playing [abc], one repetition, on the first question, with [lives]
    lives out of three. *)
Definition abc_state (lives : Z) (queue : list GauntletQuestion) : State :=
  mkState Pick "normal" 1 playing queue 0 lives 3 0 5
    0 0 0 0 0 ∅ 1000 [] 1000 None false false.


(** Playing [abc] with two repetitions: six questions, one life left. *)
Definition abc_twice_state : State :=
  mkState Pick "normal" 2 playing (generateQuestionQueue abc 2 (λ n, n)).1
    0 1 3 0 5 0 2 0 0 0 ∅ 1000 [] 1000 None false false.


(** ** More invariants of a session *)

(** The cursor counts the answers given, and the queue has grown by one
    entry for each wrong answer, up to three times the target. *)
Definition bookkeeping {props : GauntletProps} (s : State) : Prop :=
  0 ≤ correctAnswers s ∧ 0 ≤ wrongAnswers s
  ∧ currentIndex s = correctAnswers s + wrongAnswers s
  ∧ Z.of_nat (length (questionQueue s))
    = Z.max 0 (Z.min (totalQuestions s + wrongAnswers s)
                 (3 * totalQuestions s))
  ∧ (correctAnswers s < totalQuestions s ∨ totalQuestions s ≤ 0).

(** So it is with the game on screen and no save in flight. *)
Definition bookkeeping_inv {props : GauntletProps} (ws : World * State)
  : Prop :=
  screen ws.2 = ActiveGame → inflight ws.1 = [] → bookkeeping ws.2.

(** The recorded answer times are positive durations, and a result has its
    fastest answer no slower than its slowest. *)
Definition times_inv (s : State) : Prop :=
  Forall (λ t, 0 < t) (answerTimes s)
  ∧ ∀ st, sessionStats s = Some st →
          0 ≤ Stats.fastestAnswerMs st ≤ Stats.slowestAnswerMs st.

(** ** What the store properties are stated with *)

(** The order of the leaderboard. *)
Definition faster_or_equal (a b : Session) : Prop :=
  Stats.totalTimeMs (stats a) ≤ Stats.totalTimeMs (stats b).

(** The sessions that [getLeaderboard] ranks. *)
Definition ranked (dojoType : DojoType) (difficulty : option GauntletDifficulty)
    (s : Session) : Prop :=
  Stats.dojoType (stats s) = dojoType
  ∧ Stats.completed (stats s) = true
  ∧ match difficulty with
    | Some d => d = "" ∨ Stats.difficulty (stats s) = d
    | None => True
    end.

(** A blob as an older install left it: one completed kana run of 5 ms, no
    lifetime totals. *)
Definition legacy_blob : StoredBlob :=
  mkBlob 1 [mkSession "gauntlet-1-aaaaaaa" (kana_run 5)]
    (mkPerDojo {["normal-1-Pick-1" := 5]} ∅ ∅) None.

(** Two completed kana runs of the same configuration, saved on an empty
    store. *)
Definition two_runs : list (string * Stats.t) :=
  [("gauntlet-1-aaaaaaa", kana_run 7); ("gauntlet-2-bbbbbbb", kana_run 5)].

(** A kanji with one meaning. *)
Definition sun : GauntletKanji.IKanjiObj :=
  GauntletKanji.mkKanji "ri" ["sun"; "day"] ["hi"] ["nichi"].

(** * Properties *)

(** Boolean tests of the code, as propositions for [lia]. *)
Ltac bools :=
  repeat match goal with
  | H : (_ && _) = true |- _ => apply andb_true_iff in H; destruct H
  | H : (_ && _) = false |- _ => apply andb_false_iff in H
  | H : (_ <? _) = true |- _ => apply Z.ltb_lt in H
  | H : (_ <? _) = false |- _ => apply Z.ltb_ge in H
  | H : (_ <=? _) = true |- _ => apply Z.leb_le in H
  | H : (_ <=? _) = false |- _ => apply Z.leb_gt in H
  | H : (_ =? _) = true |- _ => apply Z.eqb_eq in H
  | H : (_ =? _) = false |- _ => apply Z.eqb_neq in H
  end.

(** Opens [submitAnswer] down to the tests of the source; the world after
    [recordAnswerTime] is the one after a reading of the clock. *)
Ltac open_submit w s :=
  unfold submitAnswer, advanceToNextQuestion, endGame; cbv zeta;
  match goal with
  | |- context [recordAnswerTime w s] =>
      let ts := fresh "ts" in
      let t := fresh "t" in
      let E := fresh "E" in
      assert (∃ ts t, recordAnswerTime w s
                      = ((Date_now w).2,
                         setLastAnswerTime (λ _, t)
                           (setAnswerTimes (λ _, ts) s))) as (ts & t & E)
        by (unfold recordAnswerTime; destruct s; simpl;
            repeat case_match; eexists _, _; reflexivity);
      rewrite E; clear E
  | _ => idtac
  end.

Section GauntletProperties.

Context {props : GauntletProps}.

Arguments endGame_stats : simpl never.
Arguments generateQuestionQueue : simpl never.
Arguments calculateRegenThreshold : simpl never.
Arguments requeue : simpl never.
Arguments getItemId : simpl never.
Arguments saveSession : simpl never.
Arguments generateSessionId : simpl never.

(** [random.integer] stays in its range. *)
Lemma integer_range lo hi random :
  lo ≤ hi → lo ≤ (integer lo hi random).1 ≤ hi.
Proof.
  intros Hle. unfold integer. simpl.
  pose proof (Z.mod_pos_bound (Z.of_nat (random 0%nat)) (hi - lo + 1)).
  lia.
Qed.

(** Every value of the range is drawn by some engine. *)
Lemma integer_onto lo hi v :
  lo ≤ v ≤ hi → ∃ random, (integer lo hi random).1 = v.
Proof.
  intros Hv. exists (λ _, Z.to_nat (v - lo)). unfold integer. simpl.
  rewrite Z2Nat.id by lia. rewrite Z.mod_small by lia. lia.
Qed.

Lemma run_snoc events e ws : run (events ++ [e]) ws = step e (run events ws).
Proof. unfold run. by rewrite foldl_app. Qed.

Lemma run_cons e events ws : run (e :: events) ws = run events (step e ws).
Proof. reflexivity. Qed.

Lemma run_app events1 events2 ws :
  run (events1 ++ events2) ws = run events2 (run events1 ws).
Proof. unfold run. by rewrite foldl_app. Qed.

(** ** What is on screen *)

(** The game is on screen only when the item of the current question has
    an identifier. *)
Lemma ActiveGame_has_id s q :
  screen s = ActiveGame → currentQuestion s = Some q →
  ∃ charId, getItemId (item q) = Returned charId.
Proof.
  unfold screen, questionKey. intros Hscreen Hq. rewrite Hq in Hscreen.
  destruct (getItemId (item q)) as [charId|]; [by exists charId | done].
Qed.

Lemma step_OnSubmit b w s :
  screen s = ActiveGame → step (OnSubmit b) (w, s) = submitAnswer b w s.
Proof. intros Hscreen. unfold step. simpl. by rewrite Hscreen. Qed.

(** A render does not throw when the question under the cursor is the one
    of a render that did not. *)
Lemma screen_not_RenderError s s' :
  questionQueue s' = questionQueue s → currentIndex s' = currentIndex s →
  screen s ≠ RenderError → screen s' ≠ RenderError.
Proof.
  intros Hq Hi. unfold screen, questionKey, currentQuestion.
  rewrite Hq, Hi. repeat case_match; done.
Qed.

(** ** One answer, in the cases of the source *)

(** How an answer to the question on screen ends: the session goes on (the
    handler has moved the cursor), or [endGame] has been called (queue and
    cursor are as they were, the result is built, a save is in flight). *)
Lemma submitAnswer_ends_or_not (b : bool) w s q charId :
  currentQuestion s = Some q →
  getItemId (item q) = Returned charId →
  let ended :=
    if b then (lives s <=? 0) || (totalQuestions s <=? correctAnswers s + 1)
    else lives s - 1 <=? 0 in
  let r := submitAnswer b w s in
  phase r.2 = phase s
  ∧ maxLives r.2 = maxLives s
  ∧ if ended
    then (∃ stats, inflight r.1 = inflight w ++ [Loading stats]
                   ∧ sessionStats r.2 = Some stats)
         ∧ questionQueue r.2 = questionQueue s
         ∧ currentIndex r.2 = currentIndex s
    else inflight r.1 = inflight w
         ∧ sessionStats r.2 = sessionStats s
         ∧ currentIndex r.2 = currentIndex s + 1
         ∧ 0 < lives r.2.
Proof.
  intros Hq Hid. cbv zeta. open_submit w s. rewrite Hq, Hid.
  destruct b.
  - destruct (lives s <=? 0) eqn:H1;
      [|destruct (totalQuestions s <=? correctAnswers s + 1) eqn:H2];
      cbn [orb]; repeat case_match; bools; simpl; eauto 10;
      repeat split; try reflexivity; lia.
  - destruct (lives s - 1 <=? 0) eqn:H1; bools; simpl; eauto 10.
Qed.

(** ** Lives and streaks *)

Lemma submitAnswer_lives_streak_inv b w s q charId :
  screen s = ActiveGame →
  currentQuestion s = Some q →
  getItemId (item q) = Returned charId →
  lives_streak_inv (w, s) → lives_streak_inv (submitAnswer b w s).
Proof.
  intros Hscreen Hq Hid (H1 & H2 & H3). simpl in H1, H2, H3.
  split; [|split].
  - open_submit w s. rewrite Hq, Hid.
    repeat case_match; bools; simpl in *; lia.
  - open_submit w s. rewrite Hq, Hid.
    repeat case_match; bools; simpl in *; lia.
  - intros _.
    destruct (submitAnswer_ends_or_not b w s q charId Hq Hid)
      as (_ & _ & Hend).
    destruct (if b then _ else _).
    + right. destruct Hend as ((stats & -> & _) & Hqueue & Hindex).
      split; [by destruct (inflight w)|].
      apply (screen_not_RenderError s); [done | done |].
      by rewrite Hscreen.
    + left. lia.
Qed.

Lemma handleStart_lives_streak_inv w s :
  (∀ d, 0 ≤ DifficultyConfig.lives (DIFFICULTY_CONFIG d)) →
  lives_streak_inv (handleStart w s).
Proof.
  intros Hcfg. unfold lives_streak_inv, handleStart. simpl.
  specialize (Hcfg (difficulty s)).
  split; [lia|]. split; [lia|]. intros _. left. lia.
Qed.

(** What a settlement does to the saves in flight. *)
Lemma settle_inflight k w :
  match (settle k w).2 with
  | None => length (inflight (settle k w).1) = length (inflight w)
  | Some _ => inflight w ≠ []
  end.
Proof.
  unfold settle. destruct (inflight w !! k) as [[stats|data isNewBest]|] eqn:Hk;
    simpl; [by rewrite length_insert | | done].
  intros Hnil. by rewrite Hnil in Hk.
Qed.

Lemma settle_None_nonempty k w :
  (settle k w).2 = None → inflight w ≠ [] → inflight (settle k w).1 ≠ [].
Proof.
  intros Hnone Hw. pose proof (settle_inflight k w) as Hlen.
  rewrite Hnone in Hlen. destruct (inflight w); [done|].
  by destruct (inflight (settle k w).1).
Qed.

Lemma step_lives_streak_inv e ws :
  (∀ d, 0 ≤ DifficultyConfig.lives (DIFFICULTY_CONFIG d)) →
  lives_streak_inv ws → lives_streak_inv (step e ws).
Proof.
  intros Hcfg Hinv. destruct ws as [w s]. unfold step. cbn [fst snd].
  destruct e.
  10:{ (* a settlement *)
    destruct Hinv as (H1 & H2 & H3). cbn [fst snd] in H1, H2, H3.
    destruct (settle k w).2 as [newBest|] eqn:Hsettled.
    - destruct (screen s) eqn:Hscreen;
        (split; [exact H1|]; split; [exact H2|]); cbn [snd];
        try discriminate.
      intros Hphase. destruct (H3 Hphase) as [?|[_ ?]]; [by left | done].
    - assert (lives_streak_inv ((settle k w).1, s)) as Hgoal.
      { split; [exact H1|]. split; [exact H2|]. cbn [fst snd].
        intros Hphase. destruct (H3 Hphase) as [?|[? ?]]; [by left|].
        right. split; [by apply settle_None_nonempty | done]. }
      by destruct (screen s). }
  all: destruct (screen s) eqn:Hscreen; try assumption.
  - case_match; [by apply handleStart_lives_streak_inv | assumption].
  - by apply handleStart_lives_streak_inv.
  - destruct (currentQuestion s) as [q|] eqn:Hq.
    + destruct (ActiveGame_has_id s q Hscreen Hq) as [charId Hid].
      by apply (submitAnswer_lives_streak_inv _ _ _ q charId).
    + unfold submitAnswer. by rewrite Hq.
  - unfold handleCancel. case_match; [assumption|].
    destruct Hinv as (? & ? & ?). split; [done|]. split; [done|]. discriminate.
  - by apply handleStart_lives_streak_inv.
  - destruct Hinv as (? & ? & ?). split; [done|]. split; [done|]. discriminate.
Qed.

Lemma run_lives_streak_inv events w :
  (∀ d, 0 ≤ DifficultyConfig.lives (DIFFICULTY_CONFIG d)) →
  lives_streak_inv (run events (w, initialState)).
Proof.
  intros Hcfg. induction events as [|e events IH] using rev_ind.
  - split; [simpl; lia|]. split; [simpl; lia|]. discriminate.
  - rewrite run_snoc. by apply step_lives_streak_inv.
Qed.

(** C6, as the code has it.  From the initial render, after any sequence of
    events (answers, starts, restarts, cancellations, changes of settings,
    settlements of saves), whenever the phase is [playing]:
    [lives <= maxLives] and [currentStreak <= bestStreak]; and
    [0 <= lives] whenever no save is in flight.  The starting lives of the
    difficulty table are taken to be non-negative. *)
Theorem lives_and_streak_invariant events w :
  (∀ d, 0 ≤ DifficultyConfig.lives (DIFFICULTY_CONFIG d)) →
  let ws := run events (w, initialState) in
  phase ws.2 = playing →
  lives ws.2 ≤ maxLives ws.2
  ∧ currentStreak ws.2 ≤ bestStreak ws.2
  ∧ (inflight ws.1 = [] → 0 ≤ lives ws.2).
Proof.
  intros Hcfg ws Hphase.
  destruct (run_lives_streak_inv events w Hcfg) as (H1 & H2 & H3).
  fold ws in H1, H2, H3. cbv zeta in H1, H2, H3.
  split; [exact H1|]. split; [lia|].
  intros Hnone. destruct (H3 Hphase) as [?|[? _]]; done.
Qed.

(** ** The save of a result *)

(** The result that a session-ending answer builds. *)
Lemma submitAnswer_result (b : bool) w s q charId :
  currentQuestion s = Some q →
  getItemId (item q) = Returned charId →
  (if b then (lives s <=? 0) || (totalQuestions s <=? correctAnswers s + 1)
   else lives s - 1 <=? 0) = true →
  let r := submitAnswer b w s in
  ∃ totalTimeMs timestamp,
    sessionStats r.2
    = Some (endGame_stats s (b && (0 <? lives s))
              (if b then lives s else lives s - 1)
              (correctAnswers r.2) (wrongAnswers r.2) (currentIndex s + 1)
              totalTimeMs timestamp)
    ∧ inflight r.1 = inflight w ++ [Loading
            (endGame_stats s (b && (0 <? lives s))
              (if b then lives s else lives s - 1)
              (correctAnswers r.2) (wrongAnswers r.2) (currentIndex s + 1)
              totalTimeMs timestamp)].
Proof.
  intros Hq Hid Hended. cbv zeta. open_submit w s. rewrite Hq, Hid.
  destruct b.
  - destruct (lives s <=? 0) eqn:H1.
    + rewrite (proj2 (Z.ltb_ge 0 (lives s))) by (bools; lia).
      repeat case_match; simpl; eexists _, _; split; reflexivity.
    + cbn [orb] in Hended. rewrite Hended.
      rewrite (proj2 (Z.ltb_lt 0 (lives s))) by (bools; lia).
      repeat case_match; simpl; eexists _, _; split; reflexivity.
  - rewrite Hended. simpl. eexists _, _; split; reflexivity.
Qed.

(** The save that was called last settles, with no event in between: its
    [getItem], then its [setItem]; [endGame] resumes. *)
Lemma last_save_settles w s stats calls :
  inflight w = calls ++ [Loading stats] →
  screen s ≠ RenderError →
  let k := length calls in
  ∃ w' newBest,
    run [Settled k; Settled k] (w, s) = (w', endGame_resumed newBest s)
    ∧ inflight w' = calls.
Proof.
  intros Hcalls Hscreen k. unfold run. cbn [foldl].
  assert (Hfirst : ∃ w1 data newBest,
            step (Settled k) (w, s) = (w1, s)
            ∧ inflight w1 = calls ++ [Saving data newBest]).
  { unfold step, settle. cbn [fst snd]. rewrite Hcalls.
    rewrite (lookup_app_r calls) by done.
    replace (k - length calls)%nat with 0%nat by (unfold k; lia).
    cbn [lookup list_lookup snd]. eexists _, _, _.
    split; [by destruct (screen s)|]. cbn [inflight setInflight fst].
    change (inflight (generateSessionId w).2) with (inflight w).
    rewrite Hcalls. rewrite (insert_app_r_alt calls) by done.
    replace (k - length calls)%nat with 0%nat by (unfold k; lia).
    reflexivity. }
  destruct Hfirst as (w1 & data & newBest & -> & Hw1).
  exists (mkWorld (random w1) (mathRandom w1) (clock w1) data calls), newBest.
  split; [|reflexivity].
  unfold step, settle. cbn [fst snd]. rewrite Hw1.
  rewrite (lookup_app_r calls) by done.
  replace (k - length calls)%nat with 0%nat by (unfold k; lia).
  cbn [lookup list_lookup snd fst].
  destruct (screen s); try done.
  all: by rewrite (delete_middle calls []), app_nil_r.
Qed.

(** With no save at that place, the settlements are no events. *)
Lemma no_save_settles w s k :
  (length (inflight w) ≤ k)%nat →
  run [Settled k; Settled k] (w, s) = (w, s).
Proof.
  intros Hk. unfold run. cbn [foldl].
  assert (Hstep : step (Settled k) (w, s) = (w, s)).
  { unfold step, settle. cbn [fst snd].
    rewrite (lookup_ge_None_2 _ _ Hk). by destruct (screen s). }
  by rewrite !Hstep.
Qed.

(** ** Results *)

Lemma ActiveGame_playing w s :
  result_inv (w, s) → screen s = ActiveGame → phase s = playing.
Proof.
  intros [_ Hresults]. cbn [snd] in Hresults. unfold screen.
  destruct (questionKey s); [|done]. destruct items; [done|].
  destruct (phase s); [done | done |].
  destruct (Hresults eq_refl) as [st ->]. done.
Qed.

Lemma step_result_inv e ws : result_inv ws → result_inv (step e ws).
Proof.
  intros Hinv. destruct ws as [w s]. unfold step. cbn [fst snd].
  destruct e.
  10:{ destruct Hinv as [H1 H2]. cbn [fst snd] in H1, H2.
    pose proof (settle_inflight k w) as Hk.
    destruct (settle k w).2 as [newBest|].
    - specialize (H1 Hk).
      by destruct (screen s); split; intros _.
    - assert (result_inv ((settle k w).1, s)) as Hgoal.
      { split; [|exact H2]. cbn [fst snd]. intros Hne. apply H1.
        destruct (inflight w); [|done]. by destruct (inflight (settle k w).1). }
      by destruct (screen s). }
  all: destruct (screen s) eqn:Hscreen; try assumption.
  - case_match; [|assumption]. destruct Hinv as [H1 H2].
    split; [exact H1 | discriminate].
  - destruct Hinv as [H1 H2]. split; [exact H1 | discriminate].
  - destruct (currentQuestion s) as [q|] eqn:Hq.
    + destruct (ActiveGame_has_id s q Hscreen Hq) as [charId Hid].
      destruct (submitAnswer_ends_or_not isCorrect w s q charId Hq Hid)
        as (Hphase & _ & Hend).
      destruct Hinv as [H1 H2]. cbn [fst snd] in H1, H2.
      destruct (if isCorrect then _ else _).
      * destruct Hend as ((stats & _ & Hstats) & _).
        split; intros _; rewrite Hstats; done.
      * destruct Hend as (Hin & Hstats & _).
        split; cbn [fst snd]; rewrite ?Hin, ?Hphase, Hstats; assumption.
    + unfold submitAnswer. by rewrite Hq.
  - unfold handleCancel. case_match; [assumption|].
    destruct Hinv as [H1 H2]. split; [exact H1 | discriminate].
  - destruct Hinv as [H1 H2]. split; [exact H1 | discriminate].
  - destruct Hinv as [H1 H2]. split; [exact H1 | discriminate].
Qed.

Lemma run_result_inv events w :
  inflight w = [] → result_inv (run events (w, initialState)).
Proof.
  intros Hw. induction events as [|e events IH] using rev_ind.
  - split; [|discriminate]. unfold run. cbn [foldl fst]. by rewrite Hw.
  - rewrite run_snoc. by apply step_result_inv.
Qed.

(** ** Lives lost *)

Lemma submitAnswer_lives_lost (b : bool) w s q charId :
  currentQuestion s = Some q →
  getItemId (item q) = Returned charId →
  maxLives s - lives s + livesRegenerated s = wrongAnswers s →
  let ended :=
    if b then (lives s <=? 0) || (totalQuestions s <=? correctAnswers s + 1)
    else lives s - 1 <=? 0 in
  let s' := (submitAnswer b w s).2 in
  maxLives s' - lives s' + livesRegenerated s' = wrongAnswers s'
  ∧ (ended = true →
     ∀ st, sessionStats s' = Some st →
           Stats.livesLost st
           = Stats.startingLives st - Stats.livesRemaining st
             + Stats.livesRegenerated st
           ∧ Stats.livesLost st = Stats.wrongAnswers st
           ∧ Stats.livesLost st
             = maxLives s' - lives s' + livesRegenerated s').
Proof.
  intros Hq Hid Hlost. cbv zeta. open_submit w s. rewrite Hq, Hid.
  destruct b.
  - destruct (lives s <=? 0) eqn:H1;
      [|destruct (totalQuestions s <=? correctAnswers s + 1) eqn:H2];
      cbn [orb]; repeat case_match; bools; simpl in *;
      (split; [lia|]); try discriminate;
      intros _ st [= <-]; unfold endGame_stats; simpl; lia.
  - destruct (lives s - 1 <=? 0) eqn:H1; bools; simpl in *;
      (split; [lia|]); try discriminate;
      intros _ st [= <-]; unfold endGame_stats; simpl; lia.
Qed.

Lemma step_lives_lost_inv e ws :
  lives_lost_inv ws → lives_lost_inv (step e ws).
Proof.
  intros (Hres & Hlost & Hstats).
  split; [by apply step_result_inv|].
  destruct ws as [w s]. unfold step. cbn [fst snd] in *.
  destruct e.
  10:{ destruct (settle k w).2 as [newBest|].
    - destruct (screen s); (split; [|exact Hstats]);
        first [exact Hlost | discriminate].
    - by destruct (screen s). }
  all: destruct (screen s) eqn:Hscreen; try (split; assumption).
  - case_match; [|split; assumption].
    split; [simpl; lia | exact Hstats].
  - split; [simpl; lia | exact Hstats].
  - destruct (currentQuestion s) as [q|] eqn:Hq.
    2:{ unfold submitAnswer. rewrite Hq. split; assumption. }
    destruct (ActiveGame_has_id s q Hscreen Hq) as [charId Hid].
    pose proof (ActiveGame_playing w s Hres Hscreen) as Hphase.
    destruct (submitAnswer_lives_lost isCorrect w s q charId Hq Hid
                (Hlost Hphase)) as [Hlost' Hstats'].
    split; [intros _; exact Hlost'|].
    destruct (submitAnswer_ends_or_not isCorrect w s q charId Hq Hid)
      as (_ & _ & Hend).
    intros st Hst. destruct (if isCorrect then _ else _).
    + destruct (Hstats' eq_refl st Hst) as (? & ? & _). done.
    + destruct Hend as (_ & Hsame & _). rewrite Hsame in Hst.
      by apply Hstats.
  - unfold handleCancel. case_match; [split; assumption|].
    split; [discriminate | exact Hstats].
  - split; [simpl; lia | exact Hstats].
  - split; [discriminate | exact Hstats].
Qed.

Lemma run_lives_lost_inv events w :
  inflight w = [] → lives_lost_inv (run events (w, initialState)).
Proof.
  intros Hw. induction events as [|e events IH] using rev_ind.
  - split; [by apply (run_result_inv [])|].
    split; [simpl; lia | discriminate].
  - rewrite run_snoc. by apply step_lives_lost_inv.
Qed.

(** C9.  Whatever the events since the first render (at which no save is
    in flight), the result that [endGame] built has
    [livesLost = startingLives - livesRemaining + livesRegenerated], which is
    the number of wrong answers of the session (every loss of a life, also
    those that a regeneration made up for).  And when an answer given now
    ends the session and its save settles with no event in between, the
    result on the results screen has
    [livesLost = maxLives - lives + livesRegenerated] of the final state. *)
Theorem livesLost_counts_every_loss events w st :
  inflight w = [] →
  let ws := run events (w, initialState) in
  sessionStats ws.2 = Some st →
  Stats.livesLost st
  = Stats.startingLives st - Stats.livesRemaining st
    + Stats.livesRegenerated st
  ∧ Stats.livesLost st = Stats.wrongAnswers st
  ∧ ∀ b,
      screen ws.2 = ActiveGame →
      let k := length (inflight ws.1) in
      let s' := (run [OnSubmit b; Settled k; Settled k] ws).2 in
      phase s' = results →
      ∃ st', sessionStats s' = Some st'
             ∧ Stats.livesLost st'
               = maxLives s' - lives s' + livesRegenerated s'.
Proof.
  intros Hw ws Hst.
  destruct (run_lives_lost_inv events w Hw) as (Hres & Hlost & Hstats).
  fold ws in Hres, Hlost, Hstats. cbv zeta in Hlost, Hstats.
  destruct (Hstats st Hst) as [Ha Hb]. split; [exact Ha|]. split; [exact Hb|].
  intros b Hscreen. cbv zeta. destruct ws as [w1 s1]. cbn [fst snd] in *.
  set (k := length (inflight w1)).
  rewrite run_cons, (step_OnSubmit b w1 s1 Hscreen).
  pose proof (ActiveGame_playing w1 s1 Hres Hscreen) as Hphase.
  destruct (currentQuestion s1) as [q|] eqn:Hq.
  2:{ unfold submitAnswer. rewrite Hq.
      rewrite (no_save_settles w1 s1 k) by done. cbn [snd]. congruence. }
  destruct (ActiveGame_has_id s1 q Hscreen Hq) as [charId Hid].
  destruct (submitAnswer_ends_or_not b w1 s1 q charId Hq Hid)
    as (Hphase' & _ & Hend).
  destruct (submitAnswer_lives_lost b w1 s1 q charId Hq Hid (Hlost Hphase))
    as [_ Hstats'].
  destruct (submitAnswer b w1 s1) as [w2 s2]. cbn [fst snd] in *.
  destruct (if b then _ else _).
  - destruct Hend as ((stats & Hin & Hstats2) & Hqueue & Hindex).
    destruct (last_save_settles w2 s2 stats (inflight w1) Hin)
      as (w3 & newBest & Hrun & _).
    { apply (screen_not_RenderError s1); [done | done |]. by rewrite Hscreen. }
    fold k in Hrun. rewrite Hrun.
    intros _. exists stats. split; [exact Hstats2|].
    by destruct (Hstats' eq_refl stats Hstats2) as (_ & _ & Hfinal).
  - destruct Hend as (Hin & _).
    rewrite (no_save_settles w2 s2 k) by (rewrite Hin; done).
    cbn [snd]. congruence.
Qed.

(** ** Wrong answers: the requeue and its cap *)

Lemma entry_Some {A} (queue : list A) i x :
  entry queue i = Some x → 0 ≤ i < Z.of_nat (length queue).
Proof.
  unfold entry. case_match; bools; [discriminate|].
  intros Hx%lookup_lt_Some. lia.
Qed.

Lemma requeue_capped currentIndex maxQueueSize prev random :
  maxQueueSize ≤ Z.of_nat (length prev) →
  requeue currentIndex maxQueueSize prev random = (prev, random).
Proof. intros H. unfold requeue. by rewrite (proj2 (Z.leb_le _ _) H). Qed.

Lemma requeue_below_cap currentIndex maxQueueSize prev random q :
  Z.of_nat (length prev) < maxQueueSize →
  entry prev currentIndex = Some q →
  let remaining := Z.of_nat (length prev) - (currentIndex + 1) in
  let offset :=
    if 0 <? remaining
    then (integer 1 (Z.max 1 (Z.min remaining 5)) random).1 else 1 in
  (requeue currentIndex maxQueueSize prev random).1
  = take (Z.to_nat (currentIndex + offset)) prev
    ++ q :: drop (Z.to_nat (currentIndex + offset)) prev
  ∧ 1 ≤ offset ≤ Z.max 1 (Z.min remaining 5).
Proof.
  intros Hlen Hq remaining offset.
  pose proof (entry_Some _ _ _ Hq) as Hi.
  assert (Hoff : 1 ≤ offset ≤ Z.max 1 (Z.min remaining 5)).
  { unfold offset. case_match; [apply integer_range|]; lia. }
  split; [|exact Hoff].
  unfold requeue. rewrite (proj2 (Z.leb_gt _ _) Hlen), Hq. fold remaining.
  assert (Heq : (if 0 <? remaining
                 then integer 1 (Z.max 1 (Z.min remaining 5)) random
                 else (1, random)).1 = offset).
  { unfold offset. by case_match. }
  simpl. rewrite Heq. unfold splice.
  assert (currentIndex + offset ≤ Z.of_nat (length prev)).
  { unfold offset in *. case_match; bools; lia. }
  rewrite (proj2 (Z.ltb_ge _ _)) by lia.
  by rewrite Z.min_l by lia.
Qed.

(** C5.  With the queue at (or beyond) three times the target
    [items.length * repetitions], a wrong answer to the question on screen
    leaves the queue as it is, and still costs a life, resets the streak and
    the regeneration counter, and is counted in the tallies. *)
Theorem growth_cap_stops_requeue w s q :
  screen s = ActiveGame →
  currentQuestion s = Some q →
  3 * totalQuestions s ≤ Z.of_nat (length (questionQueue s)) →
  let s' := (step (OnSubmit false) (w, s)).2 in
  questionQueue s' = questionQueue s
  ∧ lives s' = lives s - 1
  ∧ currentStreak s' = 0
  ∧ correctSinceLastRegen s' = 0
  ∧ wrongAnswers s' = wrongAnswers s + 1
  ∧ correctAnswers s' = correctAnswers s
  ∧ ∃ charId,
      getItemId (item q) = Returned charId
      ∧ characterStats s'
        = <[charId := mkCharacterStat (correct_of (characterStats s) charId)
                        (wrong_of (characterStats s) charId + 1)]>
            (characterStats s).
Proof.
  intros Hscreen Hq Hcap. cbv zeta.
  destruct (ActiveGame_has_id s q Hscreen Hq) as [charId Hid].
  rewrite (step_OnSubmit false w s Hscreen).
  open_submit w s. rewrite Hq, Hid.
  rewrite requeue_capped by (simpl; lia).
  repeat case_match; simpl; do 6 (split; [reflexivity|]);
    exists charId; split; reflexivity.
Qed.

(** C2, as the code has it.  A wrong answer to the question on screen that
    leaves lives: below the cap, a copy of the current entry goes in at
    [cursor + offset], where [offset] is [random.integer(1, k)] with
    [k = max(1, min(remaining, 5))] and [remaining] the number of entries
    after the cursor ([offset = 1] without a draw when none remains); so the
    position is in [cursor+1 .. min(cursor+5, length-1)] when entries remain
    and is [length] when the cursor is on the last entry, and every position
    of that range is the outcome of some draw.  Capped or not, the cursor
    moves on by one. *)
Theorem requeue_after_wrong_answer w s q :
  screen s = ActiveGame →
  currentQuestion s = Some q →
  0 < lives s - 1 →
  let s' := (step (OnSubmit false) (w, s)).2 in
  let len := Z.of_nat (length (questionQueue s)) in
  let remaining := len - (currentIndex s + 1) in
  let k := Z.max 1 (Z.min remaining 5) in
  let inserted_at pos queue :=
    queue = take (Z.to_nat pos) (questionQueue s)
            ++ q :: drop (Z.to_nat pos) (questionQueue s) in
  currentIndex s' = currentIndex s + 1
  ∧ (3 * totalQuestions s ≤ len → questionQueue s' = questionQueue s)
  ∧ (len < 3 * totalQuestions s →
     let offset := if 0 <? remaining then (integer 1 k (random w)).1 else 1 in
     inserted_at (currentIndex s + offset) (questionQueue s')
     ∧ currentIndex s + 1 ≤ currentIndex s + offset ≤ currentIndex s + k
     ∧ currentIndex s + k ≤ Z.min (currentIndex s + 5) len
     ∧ (0 < remaining → currentIndex s + k ≤ len - 1)
     ∧ ∀ pos, currentIndex s + 1 ≤ pos ≤ currentIndex s + k →
         ∃ random',
           inserted_at pos
             (questionQueue
                (step (OnSubmit false) (setRandom random' w, s)).2)).
Proof.
  intros Hscreen Hq Hlives s' len remaining k inserted_at.
  pose proof (entry_Some _ _ _ Hq) as Hi. fold len in Hi.
  destruct (ActiveGame_has_id s q Hscreen Hq) as [charId Hid].
  assert (Hstep : ∀ w, step (OnSubmit false) (w, s) = submitAnswer false w s).
  { intros w'. by apply step_OnSubmit. }
  assert (Hqueue : ∀ w,
    questionQueue (submitAnswer false w s).2
    = (requeue (currentIndex s) (totalQuestions s * 3) (questionQueue s)
         (random w)).1).
  { intros w'. open_submit w' s.
    rewrite Hq, Hid, (proj2 (Z.leb_gt (lives s - 1) 0)) by lia.
    reflexivity. }
  unfold s'. rewrite Hstep. split; [|split].
  - open_submit w s.
    rewrite Hq, Hid, (proj2 (Z.leb_gt (lives s - 1) 0)) by lia.
    reflexivity.
  - intros Hcap. rewrite Hqueue, requeue_capped by lia. reflexivity.
  - intros Hbelow.
    set (offset := if 0 <? remaining then (integer 1 k (random w)).1 else 1).
    destruct (requeue_below_cap (currentIndex s) (totalQuestions s * 3)
                (questionQueue s) (random w) q) as [Hins Hoff];
      [lia | exact Hq |].
    fold len remaining k offset in Hins, Hoff.
    split; [unfold inserted_at; by rewrite Hqueue|].
    split; [lia|]. split; [lia|]. split; [lia|].
    intros pos Hpos.
    destruct (integer_onto 1 k (pos - currentIndex s)) as [random' Hdraw];
      [lia|].
    exists random'. rewrite Hstep, Hqueue. unfold inserted_at.
    destruct (requeue_below_cap (currentIndex s) (totalQuestions s * 3)
                (questionQueue s) (random (setRandom random' w)) q)
      as [Hins' _]; [lia | exact Hq |].
    cbv zeta in Hins'.
    change (random (setRandom random' w)) with random' in Hins'.
    fold len in Hins'. fold remaining in Hins'. fold k in Hins'.
    rewrite Hdraw in Hins'.
    change (random (setRandom random' w)) with random'. rewrite Hins'.
    destruct (0 <? remaining) eqn:Hrem; bools.
    + by replace (currentIndex s + (pos - currentIndex s)) with pos by lia.
    + by replace pos with (currentIndex s + 1) by lia.
Qed.

(** ** Correct answers: regeneration *)

(** What one correct answer does when lives are left. *)
Lemma submitAnswer_correct w s q charId :
  currentQuestion s = Some q →
  getItemId (item q) = Returned charId →
  0 < lives s →
  let s' := (submitAnswer true w s).2 in
  let regen :=
    DifficultyConfig.regenerates (DIFFICULTY_CONFIG (difficulty s))
    && (lives s <? maxLives s) in
  let reached := regenThreshold s <=? correctSinceLastRegen s + 1 in
  maxLives s' = maxLives s
  ∧ regenThreshold s' = regenThreshold s
  ∧ difficulty s' = difficulty s
  ∧ repetitions s' = repetitions s
  ∧ questionQueue s' = questionQueue s
  ∧ correctAnswers s' = correctAnswers s + 1
  ∧ lives s' = (if regen && reached then Z.min (lives s + 1) (maxLives s)
                else lives s)
  ∧ correctSinceLastRegen s'
    = (if regen then if reached then 0 else correctSinceLastRegen s + 1
       else correctSinceLastRegen s)
  ∧ phase s' = phase s
  ∧ (correctAnswers s + 1 < totalQuestions s →
     currentIndex s' = currentIndex s + 1)
  ∧ wrongAnswers s' = wrongAnswers s.
Proof.
  intros Hq Hid Hlives. cbv zeta.
  open_submit w s. rewrite Hq, Hid.
  rewrite (proj2 (Z.leb_gt (lives s) 0)) by lia.
  repeat case_match; bools; simpl in *; repeat split;
    try reflexivity; try discriminate; try lia.
Qed.

(** What one wrong answer does when it is not the last life. *)
Lemma submitAnswer_wrong w s q charId :
  currentQuestion s = Some q →
  getItemId (item q) = Returned charId →
  1 < lives s →
  let s' := (submitAnswer false w s).2 in
  maxLives s' = maxLives s
  ∧ regenThreshold s' = regenThreshold s
  ∧ difficulty s' = difficulty s
  ∧ repetitions s' = repetitions s
  ∧ phase s' = phase s
  ∧ sessionStats s' = sessionStats s
  ∧ correctAnswers s' = correctAnswers s
  ∧ wrongAnswers s' = wrongAnswers s + 1
  ∧ lives s' = lives s - 1
  ∧ currentIndex s' = currentIndex s + 1
  ∧ questionQueue s'
    = (requeue (currentIndex s) (totalQuestions s * 3) (questionQueue s)
         (random w)).1
  ∧ correctSinceLastRegen s' = 0
  ∧ currentStreak s' = 0.
Proof.
  intros Hq Hid Hlives. cbv zeta.
  open_submit w s.
  rewrite Hq, Hid, (proj2 (Z.leb_gt (lives s - 1) 0)) by lia.
  repeat split; reflexivity.
Qed.

Lemma has_id_Returned it :
  has_id it → ∃ charId, getItemId it = Returned charId.
Proof. unfold has_id. destruct (getItemId it); [eauto | done]. Qed.

(** The game is on screen when there are items, the phase is [playing] and
    the item of the current question has an identifier. *)
Lemma ActiveGame_intro s :
  items ≠ [] → phase s = playing →
  (∀ q, currentQuestion s = Some q → has_id (item q)) →
  screen s = ActiveGame.
Proof.
  intros Hitems Hphase Hid. unfold screen, questionKey.
  destruct (currentQuestion s) as [q|].
  - destruct (has_id_Returned _ (Hid q eq_refl)) as [charId ->].
    destruct items; [done|]. by rewrite Hphase.
  - destruct items; [done|]. by rewrite Hphase.
Qed.

Lemma ActiveGame_items s : screen s = ActiveGame → items ≠ [].
Proof. unfold screen. repeat case_match; done. Qed.

Lemma ActiveGame_RenderError s : screen s = ActiveGame → screen s ≠ RenderError.
Proof. by intros ->. Qed.

(** [n] correct answers in a row, from a state with one life out of three,
    a fresh regeneration counter and a threshold of five, while the queue
    and the target last. *)
Lemma correct_answers_regenerate (n : nat) w s :
  DifficultyConfig.regenerates (DIFFICULTY_CONFIG (difficulty s)) = true →
  screen s = ActiveGame → phase s = playing →
  maxLives s = 3 → lives s = 1 →
  regenThreshold s = 5 → correctSinceLastRegen s = 0 →
  0 ≤ currentIndex s →
  (∀ q, q ∈ questionQueue s → has_id (item q)) →
  currentIndex s + Z.of_nat n ≤ Z.of_nat (length (questionQueue s)) →
  correctAnswers s + Z.of_nat n ≤ totalQuestions s →
  let s' := (run (replicate n (OnSubmit true)) (w, s)).2 in
  lives s' = Z.min 3 (1 + Z.of_nat n / 5)
  ∧ correctSinceLastRegen s'
    = (if Z.of_nat n <? 10 then Z.of_nat n `mod` 5 else 0)
  ∧ maxLives s' = 3 ∧ regenThreshold s' = 5
  ∧ difficulty s' = difficulty s ∧ repetitions s' = repetitions s
  ∧ questionQueue s' = questionQueue s
  ∧ correctAnswers s' = correctAnswers s + Z.of_nat n
  ∧ phase s' = playing
  ∧ (correctAnswers s + Z.of_nat n < totalQuestions s →
     currentIndex s' = currentIndex s + Z.of_nat n).
Proof.
  intros Hregen Hscreen Hphase Hmax Hlives Hthr Hcount Hidx Hids.
  induction n as [|n IH]; intros Hlen Htotal.
  { simpl. rewrite Hlives, Hcount, Hmax, Hthr.
    repeat split; try reflexivity; try lia. assumption. }
  cbv zeta. replace (replicate (S n) (OnSubmit true))
    with (replicate n (OnSubmit true) ++ [OnSubmit true])
    by (by rewrite <- replicate_S_end).
  rewrite run_snoc.
  destruct IH as (IHl & IHc & IHm & IHt & IHd & IHr & IHq & IHa & IHph & IHi);
    [lia | lia |].
  specialize (IHi ltac:(lia)).
  destruct (run (replicate n (OnSubmit true)) (w, s)) as [wn sn] eqn:Hrun.
  simpl in IHl, IHc, IHm, IHt, IHd, IHr, IHq, IHa, IHph, IHi.
  assert (Hcur : ∃ q, currentQuestion sn = Some q).
  { unfold currentQuestion, entry. rewrite IHq, IHi.
    rewrite (proj2 (Z.ltb_ge _ _)) by lia.
    apply lookup_lt_is_Some. lia. }
  destruct Hcur as [q Hq].
  assert (Hin : q ∈ questionQueue s).
  { unfold currentQuestion, entry in Hq. rewrite IHq in Hq.
    case_match; [done|]. by eapply list_elem_of_lookup_2. }
  destruct (has_id_Returned _ (Hids q Hin)) as [charId Hid].
  assert (Hsn : screen sn = ActiveGame).
  { apply ActiveGame_intro; [by eapply ActiveGame_items | done |].
    intros q' Hq'. rewrite Hq in Hq'. injection Hq' as <-. by apply Hids. }
  rewrite (step_OnSubmit true wn sn Hsn).
  assert (Hdiv : 0 ≤ Z.of_nat n / 5) by (apply Z.div_pos; lia).
  destruct (submitAnswer_correct wn sn q charId Hq Hid) as
    (Hm & Ht & Hd & Hr & Hqq & Ha & Hl & Hc & Hph & Hp & _); [lia|].
  unfold totalQuestions in *. rewrite IHr, IHa in Hp.
  rewrite Hm, Ht, Hd, Hr, Hqq, Ha, Hl, Hc.
  rewrite IHd, Hregen, IHl, IHc, IHm, IHt, ?IHr, ?IHq, ?IHa.
  replace (Z.of_nat (S n)) with (Z.of_nat n + 1) by lia.
  assert (Hn : Z.of_nat n = 5 * (Z.of_nat n / 5) + Z.of_nat n `mod` 5)
    by (apply Z.div_mod; lia).
  pose proof (Z.mod_pos_bound (Z.of_nat n) 5 ltac:(lia)) as Hmod.
  assert (Hn1 : Z.of_nat n + 1
                = 5 * ((Z.of_nat n + 1) / 5) + (Z.of_nat n + 1) `mod` 5)
    by (apply Z.div_mod; lia).
  pose proof (Z.mod_pos_bound (Z.of_nat n + 1) 5 ltac:(lia)) as Hmod1.
  repeat split; try reflexivity; try lia.
  - repeat case_match; bools; simpl in *; lia.
  - repeat case_match; bools; simpl in *; lia.
  - congruence.
Qed.

(** C4.  Regeneration on, [maxLives = 3], [lives = 1], [regenThreshold = 5],
    the counter of correct answers since the last regeneration at 0: five
    correct answers in a row bring the lives to 2 and the counter back to 0;
    the sixth to the ninth leave the lives at 2 (the counter counts them);
    the tenth brings a third life.  The answers are those that the queue and
    the target [items.length * repetitions] leave room for, to questions
    whose items have an identifier. *)
Theorem five_correct_answers_regenerate_one_life (n : nat) w s :
  DifficultyConfig.regenerates (DIFFICULTY_CONFIG (difficulty s)) = true →
  screen s = ActiveGame → phase s = playing →
  maxLives s = 3 → lives s = 1 →
  regenThreshold s = 5 → correctSinceLastRegen s = 0 →
  0 ≤ currentIndex s →
  (∀ q, q ∈ questionQueue s → has_id (item q)) →
  currentIndex s + Z.of_nat n ≤ Z.of_nat (length (questionQueue s)) →
  correctAnswers s + Z.of_nat n ≤ totalQuestions s →
  let s' := (run (replicate n (OnSubmit true)) (w, s)).2 in
  (n = 5%nat → lives s' = 2 ∧ correctSinceLastRegen s' = 0)
  ∧ (n = 6%nat → lives s' = 2 ∧ correctSinceLastRegen s' = 1)
  ∧ ((5 < n < 10)%nat →
     lives s' = 2 ∧ correctSinceLastRegen s' = Z.of_nat n - 5)
  ∧ (n = 10%nat → lives s' = 3 ∧ correctSinceLastRegen s' = 0).
Proof.
  intros Hregen Hscreen Hphase Hmax Hlives Hthr Hcount Hidx Hids Hlen Htotal s'.
  destruct (correct_answers_regenerate n w s) as (Hl & Hc & _);
    try assumption.
  fold s' in Hl, Hc.
  split; [|split; [|split]]; intros Hn;
    try (subst n; rewrite Hl, Hc; split; reflexivity).
  assert (Z.of_nat n / 5 = 1)
    by (symmetry; apply (Z.div_unique _ 5 1 (Z.of_nat n - 5)); lia).
  rewrite Hl, Hc. split; [lia|].
  rewrite (proj2 (Z.ltb_lt _ _)) by lia.
  symmetry. apply (Z.mod_unique _ 5 1); lia.
Qed.

(** ** Item identity *)

Lemma getItemId_plain_object fields :
  lacks_id_fields fields → "toString" ∉ fields.*1 →
  getItemId (JsObject fields) = Returned "[object Object]".
Proof.
  intros (Hkana & Hkanji & Hword & Hid) Hown. unfold getItemId.
  change (is_object (JsObject fields)) with true. cbv iota.
  rewrite Hkana, Hkanji, Hword, Hid. cbn [js_String].
  by rewrite bool_decide_eq_false_2.
Qed.

(** The tally that [submitAnswer] writes goes under [getItemId] of the item
    on screen. *)
Lemma submitAnswer_characterStats isCorrect w s q charId :
  currentQuestion s = Some q →
  getItemId (item q) = Returned charId →
  let prev := characterStats s in
  characterStats (submitAnswer isCorrect w s).2
  = <[charId :=
        if isCorrect
        then mkCharacterStat (correct_of prev charId + 1) (wrong_of prev charId)
        else mkCharacterStat (correct_of prev charId) (wrong_of prev charId + 1)]>
      prev.
Proof.
  intros Hq Hid. cbv zeta. open_submit w s. rewrite Hq, Hid.
  repeat case_match; reflexivity.
Qed.

(** C10, as the code has it.  Two plain objects (not arrays) with none of
    the fields [kana], [kanji], [word], [id] and without a [toString] of
    their own get the same key from [getItemId], the string
    ["[object Object]"]; an answer to a question on either of them is
    tallied under that one key, on top of what the other left there. *)
Theorem fieldless_objects_share_one_tally props1 props2 :
  lacks_id_fields props1 → lacks_id_fields props2 →
  "toString" ∉ props1.*1 → "toString" ∉ props2.*1 →
  getItemId (JsObject props1) = getItemId (JsObject props2)
  ∧ getItemId (JsObject props1) = Returned "[object Object]"
  ∧ ∀ isCorrect w s q,
      currentQuestion s = Some q →
      item q = JsObject props1 ∨ item q = JsObject props2 →
      let prev := characterStats s in
      let key := "[object Object]" in
      characterStats (submitAnswer isCorrect w s).2
      = <[key :=
            if isCorrect
            then mkCharacterStat (correct_of prev key + 1) (wrong_of prev key)
            else mkCharacterStat (correct_of prev key) (wrong_of prev key + 1)]>
          prev.
Proof.
  intros H1 H2 Hown1 Hown2.
  pose proof (getItemId_plain_object _ H1 Hown1) as E1.
  pose proof (getItemId_plain_object _ H2 Hown2) as E2.
  split; [congruence|]. split; [exact E1|].
  intros isCorrect w s q Hq Hitem. cbv zeta.
  apply (submitAnswer_characterStats isCorrect w s q _ Hq).
  by destruct Hitem as [-> | ->].
Qed.

(** ** Starting a session *)

Lemma handleStart_state w s :
  let s' := (handleStart w s).2 in
  phase s' = playing
  ∧ questionQueue s'
    = (generateQuestionQueue items (repetitions s) (random w)).1
  ∧ currentIndex s' = 0
  ∧ lives s' = DifficultyConfig.lives (DIFFICULTY_CONFIG (difficulty s))
  ∧ maxLives s' = DifficultyConfig.lives (DIFFICULTY_CONFIG (difficulty s))
  ∧ correctSinceLastRegen s' = 0
  ∧ regenThreshold s'
    = calculateRegenThreshold (Z.of_nat (length (questionQueue s')))
  ∧ correctAnswers s' = 0 ∧ wrongAnswers s' = 0
  ∧ currentStreak s' = 0 ∧ bestStreak s' = 0
  ∧ livesRegenerated s' = 0 ∧ characterStats s' = ∅
  ∧ difficulty s' = difficulty s ∧ repetitions s' = repetitions s
  ∧ sessionStats s' = sessionStats s
  ∧ inflight (handleStart w s).1 = inflight w.
Proof. repeat split; reflexivity. Qed.

End GauntletProperties.

(** * Scenarios *)

Lemma generateQuestionQueue_one_item it random :
  generateQuestionQueue [it] 1 random = ([mkQuestion it 0 1], random).
Proof. reflexivity. Qed.

Lemma calculateRegenThreshold_one : calculateRegenThreshold 1 = 5.
Proof. vm_compute. reflexivity. Qed.

Lemma requeue_one_item q random :
  (requeue 0 (1 * 1 * 3) [q] random).1 = [q; q].
Proof. reflexivity. Qed.

(** C3.  One item (with an identifier), one repetition, three lives: the
    session is started, the first answer is wrong, the second (to the copy
    put back in the queue) is right, and the save of the result settles.
    The session ends on the results screen, completed, with one correct and
    one wrong answer and two lives. *)
Theorem wrong_then_correct_completes (props : GauntletProps) it w :
  items = [it] →
  has_id it →
  storedRepetitions = 1 →
  DifficultyConfig.lives (DIFFICULTY_CONFIG storedDifficulty) = 3 →
  let k := length (inflight w) in
  let s := (run [OnStart; OnSubmit false; OnSubmit true; Settled k; Settled k]
              (w, initialState)).2 in
  phase s = results
  ∧ lives s = 2 ∧ correctAnswers s = 1 ∧ wrongAnswers s = 1
  ∧ ∃ st, sessionStats s = Some st
          ∧ Stats.completed st = true
          ∧ Stats.correctAnswers st = 1
          ∧ Stats.wrongAnswers st = 1
          ∧ Stats.livesRemaining st = 2.
Proof.
  intros Hitems Hit Hreps Hlives. cbv zeta.
  destruct (has_id_Returned it Hit) as [charId Hid].
  set (k := length (inflight w)).
  do 3 rewrite run_cons.
  set (q := mkQuestion it 0 1).
  (* the start *)
  assert (Hstep0 : step OnStart (w, initialState)
                   = handleStart w initialState).
  { unfold step, screen. cbn [fst snd initialState phase]. by rewrite Hitems. }
  rewrite Hstep0.
  destruct (handleStart_state w initialState) as
    (Hp1 & Hq1 & Hi1 & Hl1 & Hm1 & Hn1 & Ht1 & Hc1 & Hw1 & _ & _ & _ & _
     & Hd1 & Hr1 & Hs1 & Hf1).
  destruct (handleStart w initialState) as [w1 s1].
  cbn [fst snd initialState repetitions difficulty sessionStats]
    in Hp1, Hq1, Hi1, Hl1, Hm1, Hn1, Ht1, Hc1, Hw1, Hd1, Hr1, Hs1, Hf1.
  rewrite Hitems, Hreps, generateQuestionQueue_one_item in Hq1.
  cbn [fst] in Hq1. fold q in Hq1.
  rewrite Hq1 in Ht1. change (Z.of_nat (length [q])) with 1 in Ht1.
  rewrite calculateRegenThreshold_one in Ht1.
  rewrite Hlives in Hl1, Hm1. rewrite Hreps in Hr1.
  assert (Hcur1 : currentQuestion s1 = Some q).
  { unfold currentQuestion. by rewrite Hq1, Hi1. }
  assert (Hscreen : ∀ s, phase s = playing → currentQuestion s = Some q →
                         screen s = ActiveGame).
  { intros s Hs Hq. apply ActiveGame_intro; [by rewrite Hitems | done |].
    intros q' Hq'. rewrite Hq in Hq'. by injection Hq' as <-. }
  assert (Htotal : ∀ s, repetitions s = 1 → totalQuestions s = 1).
  { intros s Hs. unfold totalQuestions. by rewrite Hitems, Hs. }
  (* the wrong answer *)
  rewrite (step_OnSubmit false w1 s1) by (by apply Hscreen).
  destruct (submitAnswer_wrong w1 s1 q charId Hcur1 Hid) as
    (Hm2 & Ht2 & Hd2 & Hr2 & Hp2 & Hs2 & Hc2 & Hw2 & Hl2 & Hi2 & Hq2 & Hn2 & _);
    [lia|].
  rewrite Htotal, Hi1, Hq1 in Hq2 by exact Hr1.
  rewrite (requeue_one_item q) in Hq2.
  destruct (submitAnswer_ends_or_not false w1 s1 q charId Hcur1 Hid)
    as (_ & _ & Hend2).
  rewrite (proj2 (Z.leb_gt (lives s1 - 1) 0)) in Hend2 by lia.
  destruct Hend2 as (Hf2 & _).
  destruct (submitAnswer false w1 s1) as [w2 s2].
  cbn [fst snd] in Hm2, Ht2, Hd2, Hr2, Hp2, Hs2, Hc2, Hw2, Hl2, Hi2, Hq2, Hn2,
    Hf2.
  assert (Hcur2 : currentQuestion s2 = Some q).
  { unfold currentQuestion. by rewrite Hq2, Hi2, Hi1. }
  (* the correct answer *)
  rewrite (step_OnSubmit true w2 s2) by (apply Hscreen; congruence).
  destruct (submitAnswer_correct w2 s2 q charId Hcur2 Hid) as
    (_ & _ & _ & _ & Hq3 & Hc3 & Hl3 & _ & Hp3 & _ & Hw3); [lia|].
  destruct (submitAnswer_result true w2 s2 q charId Hcur2 Hid)
    as (totalTimeMs & timestamp & Hst & Hf3).
  { rewrite Htotal by congruence.
    rewrite (proj2 (Z.leb_le 1 (correctAnswers s2 + 1))) by lia.
    apply orb_true_r. }
  destruct (submitAnswer_ends_or_not true w2 s2 q charId Hcur2 Hid)
    as (_ & _ & Hend3).
  rewrite Htotal in Hend3 by congruence.
  rewrite (proj2 (Z.leb_le 1 (correctAnswers s2 + 1))), orb_true_r in Hend3
    by lia.
  destruct Hend3 as (_ & _ & Hi3).
  destruct (submitAnswer true w2 s2) as [w3 s3].
  cbn [fst snd] in Hq3, Hc3, Hl3, Hp3, Hw3, Hst, Hf3, Hi3.
  (* the save *)
  destruct (last_save_settles w3 s3 _ (inflight w) ltac:(by rewrite Hf3, Hf2, Hf1))
    as (w4 & newBest & Hrun & _).
  { apply ActiveGame_RenderError. apply Hscreen; [congruence|].
    unfold currentQuestion. rewrite Hq3, Hi3. exact Hcur2. }
  fold k in Hrun. rewrite Hrun. cbn [snd].
  split; [reflexivity|]. split.
  { cbn [endGame_resumed lives setPhase setIsNewBest].
    rewrite Hl3, Hl2, Hm2, Ht2, Hn2, Hl1, Hm1, Ht1.
    change (5 <=? 0 + 1) with false. by rewrite andb_false_r. }
  split; [cbn; lia|]. split; [cbn; lia|].
  eexists. split; [exact Hst|].
  unfold endGame_stats. cbn [Stats.completed Stats.correctAnswers
    Stats.wrongAnswers Stats.livesRemaining].
  rewrite (proj2 (Z.ltb_lt 0 (lives s2))) by lia.
  repeat split; lia.
Qed.
(** ** Queue generation without repetitions *)

Lemma bind_to_nil {A B} (l : list A) : l ≫= (λ _, @nil B) = [].
Proof. induction l as [|x l IH]; [reflexivity|]. simpl. exact IH. Qed.

Lemma generateQuestionQueue_below_one items repetitions random :
  repetitions < 1 →
  generateQuestionQueue items repetitions random = ([], random).
Proof.
  intros Hreps. unfold generateQuestionQueue.
  rewrite seqZ_nil by lia. simpl. by rewrite bind_to_nil.
Qed.

(** C1, as the code has it.  With [repetitions < 1] the call of
    [generateQuestionQueue] returns, with the empty queue and without a
    draw; no error is raised, and [handleStart] goes on to the [playing]
    phase with that empty queue. *)
Theorem generateQuestionQueue_below_one_repetition
    (props : GauntletProps) reps random :
  reps < 1 →
  call_generateQuestionQueue items reps random = Returned ([], random)
  ∧ ∀ w s,
      repetitions s = reps →
      let s' := (handleStart w s).2 in
      phase s' = playing ∧ questionQueue s' = [].
Proof.
  intros Hreps. split.
  - unfold call_generateQuestionQueue.
    by rewrite generateQuestionQueue_below_one.
  - intros w s Hs.
    destruct (handleStart_state w s) as (Hp & Hq & _).
    cbv zeta. split; [exact Hp|].
    rewrite Hq, Hs. by rewrite generateQuestionQueue_below_one.
Qed.

(** C1 as the specification states it fails: with [repetitions = 0] the
    call returns; it does not fail with [InvalidConfigError]. *)
Lemma generateQuestionQueue_zero_repetitions_returns :
  (0 : Z) < 1
  ∧ call_generateQuestionQueue [JsString "a"] 0 (λ n, n)
    ≠ Thrown "InvalidConfigError".
Proof. split; [lia | discriminate]. Qed.

(** C2 as the specification states it fails: with three entries and the
    cursor on the first, position 3 lies in
    [cursor+1 .. min(cursor+5, queue.length)], yet no draw puts the copy
    there. *)
Lemma requeue_never_at_end_of_tail :
  let props := kana_props abc in
  let s := abc_state 3 abc_queue in
  let q := mkQuestion (JsString "a") 0 1 in
  screen s = ActiveGame
  ∧ currentQuestion s = Some q
  ∧ 0 < lives s - 1
  ∧ Z.of_nat (length (questionQueue s)) < 3 * totalQuestions s
  ∧ currentIndex s + 1 ≤ 3
      ≤ Z.min (currentIndex s + 5) (Z.of_nat (length (questionQueue s)))
  ∧ ∀ w,
      questionQueue (step (OnSubmit false) (w, s)).2
      ≠ take 3 (questionQueue s) ++ q :: drop 3 (questionQueue s).
Proof.
  cbv zeta.
  split; [reflexivity|]. split; [reflexivity|].
  split; [vm_compute; reflexivity|]. split; [vm_compute; reflexivity|].
  split; [vm_compute; split; discriminate|].
  intros w.
  change (step (props := kana_props abc) (OnSubmit false)
            (w, abc_state 3 abc_queue))
    with (submitAnswer (props := kana_props abc) false w
            (abc_state 3 abc_queue)).
  destruct (submitAnswer_wrong (props := kana_props abc) w
              (abc_state 3 abc_queue) (mkQuestion (JsString "a") 0 1) "a")
    as (_ & _ & _ & _ & _ & _ & _ & _ & _ & _ & Hq & _);
    [reflexivity | reflexivity | vm_compute; reflexivity |].
  rewrite Hq.
  destruct (requeue_below_cap 0
              (totalQuestions (props := kana_props abc)
                 (abc_state 3 abc_queue) * 3)
              abc_queue (random w) (mkQuestion (JsString "a") 0 1))
    as [Hins Hoff]; [vm_compute; reflexivity | reflexivity |].
  change (currentIndex (abc_state 3 abc_queue)) with 0.
  change (questionQueue (abc_state 3 abc_queue)) with abc_queue.
  rewrite Hins. clear Hins Hq.
  change (Z.of_nat (length abc_queue) - (0 + 1)) with 2 in *.
  change (0 <? 2) with true in *. cbv iota in *.
  change (Z.max 1 (Z.min 2 5)) with 2 in *.
  set (offset := (integer 1 2 (random w)).1) in *.
  assert (Hcases : offset = 1 ∨ offset = 2) by lia.
  destruct Hcases as [-> | ->]; vm_compute; discriminate.
Qed.

(** C6 as the specification states it fails: with three lives, the third
    wrong answer ends the session, but until the save of the result
    settles the phase is still [playing] and the game still on screen; a
    fourth wrong answer takes the lives to [-1]. *)
Lemma lives_below_zero_while_playing :
  let props := kana_props abc in
  let ws := run [OnStart; OnSubmit false; OnSubmit false; OnSubmit false;
                 OnSubmit false] (some_world, initialState) in
  phase ws.2 = playing ∧ screen ws.2 = ActiveGame ∧ lives ws.2 = -1.
Proof. vm_compute. repeat split; reflexivity. Qed.

(** C10 as the specification states it fails: two arrays are objects for
    [typeof] and have none of the four fields, yet [getItemId] gives them
    different keys (their elements, joined). *)
Lemma arrays_get_separate_keys :
  let item1 := JsArray [JsNumber 1] in
  let item2 := JsArray [JsNumber 2] in
  is_object item1 = true ∧ is_object item2 = true
  ∧ forallb (λ key, negb (has_property key item1)
                    && negb (has_property key item2))
      ["kana"; "kanji"; "word"; "id"] = true
  ∧ getItemId item1 = Returned "1"
  ∧ getItemId item2 = Returned "2"
  ∧ getItemId item1 ≠ getItemId item2.
Proof. vm_compute. repeat split; try reflexivity. discriminate. Qed.

(** ** The theorems at concrete inputs *)

Lemma generateQuestionQueue_below_one_repetition_witness :
  (0 : Z) < 1
  ∧ call_generateQuestionQueue [JsString "a"] 0 (λ n, n)
    = Returned ([], λ n, n).
Proof.
  split; [lia|].
  exact (proj1 (generateQuestionQueue_below_one_repetition
                  (kana_props [JsString "a"]) 0 (λ n, n) ltac:(lia))).
Defined.

Lemma requeue_after_wrong_answer_witness :
  let props := kana_props abc in
  let s := abc_state 3 abc_queue in
  screen s = ActiveGame
  ∧ currentQuestion s = Some (mkQuestion (JsString "a") 0 1)
  ∧ 0 < lives s - 1
  ∧ currentIndex (step (OnSubmit false) (some_world, s)).2
    = currentIndex s + 1.
Proof.
  cbv zeta. split; [reflexivity|]. split; [reflexivity|].
  split; [vm_compute; reflexivity|].
  exact (proj1 (requeue_after_wrong_answer (props := kana_props abc)
                  some_world (abc_state 3 abc_queue)
                  (mkQuestion (JsString "a") 0 1)
                  eq_refl eq_refl eq_refl)).
Defined.

Lemma wrong_then_correct_completes_witness :
  let props := kana_props [JsString "a"] in
  items = [JsString "a"]
  ∧ has_id (JsString "a")
  ∧ storedRepetitions = 1
  ∧ DifficultyConfig.lives (DIFFICULTY_CONFIG storedDifficulty) = 3
  ∧ phase (run [OnStart; OnSubmit false; OnSubmit true; Settled 0; Settled 0]
             (some_world, initialState)).2 = results.
Proof.
  cbv zeta. split; [reflexivity|]. split; [exact I|].
  do 2 (split; [reflexivity|]).
  exact (proj1 (wrong_then_correct_completes (kana_props [JsString "a"])
                  (JsString "a") some_world eq_refl I eq_refl eq_refl)).
Defined.

Lemma five_correct_answers_regenerate_one_life_witness :
  let props := kana_props abc in
  let s := abc_twice_state in
  let s' := (run (replicate 5 (OnSubmit true)) (some_world, s)).2 in
  maxLives s = 3 ∧ lives s = 1 ∧ regenThreshold s = 5
  ∧ correctSinceLastRegen s = 0
  ∧ Forall (λ q, has_id (item q)) (questionQueue s)
  ∧ lives s' = 2 ∧ correctSinceLastRegen s' = 0.
Proof.
  cbv zeta. do 4 (split; [reflexivity|]).
  assert (Hids : Forall (λ q, has_id (item q)) (questionQueue abc_twice_state))
    by (repeat constructor).
  split; [exact Hids|].
  exact (proj1 (five_correct_answers_regenerate_one_life
                  (props := kana_props abc) 5 some_world abc_twice_state
                  eq_refl eq_refl eq_refl eq_refl eq_refl eq_refl eq_refl
                  ltac:(vm_compute; discriminate)
                  (λ q Hq, proj1 (Forall_forall _ _) Hids q Hq)
                  ltac:(vm_compute; discriminate)
                  ltac:(vm_compute; discriminate)) eq_refl).
Defined.

Lemma growth_cap_stops_requeue_witness :
  let props := kana_props [JsString "a"] in
  let q := mkQuestion (JsString "a") 0 1 in
  let s := abc_state 3 [q; q; q] in
  let s' := (step (OnSubmit false) (some_world, s)).2 in
  3 * totalQuestions s ≤ Z.of_nat (length (questionQueue s))
  ∧ questionQueue s' = questionQueue s
  ∧ lives s' = lives s - 1.
Proof.
  cbv zeta. split; [vm_compute; discriminate|].
  destruct (growth_cap_stops_requeue (props := kana_props [JsString "a"])
              some_world
              (abc_state 3 [mkQuestion (JsString "a") 0 1;
                            mkQuestion (JsString "a") 0 1;
                            mkQuestion (JsString "a") 0 1])
              (mkQuestion (JsString "a") 0 1)
              eq_refl eq_refl ltac:(vm_compute; discriminate))
    as (Hq & Hl & _).
  split; [exact Hq | exact Hl].
Defined.

Lemma lives_and_streak_invariant_witness :
  let props := kana_props abc in
  let ws := run [OnStart; OnSubmit false] (some_world, initialState) in
  (∀ d, 0 ≤ DifficultyConfig.lives (DIFFICULTY_CONFIG d))
  ∧ phase ws.2 = playing
  ∧ inflight ws.1 = []
  ∧ lives ws.2 ≤ maxLives ws.2
  ∧ currentStreak ws.2 ≤ bestStreak ws.2
  ∧ (inflight ws.1 = [] → 0 ≤ lives ws.2).
Proof.
  cbv zeta.
  assert (Hcfg : ∀ d, 0 ≤ DifficultyConfig.lives
                            (DIFFICULTY_CONFIG (GauntletProps := kana_props abc) d))
    by (intros d; simpl; lia).
  split; [exact Hcfg|]. split; [vm_compute; reflexivity|].
  split; [vm_compute; reflexivity|].
  exact (lives_and_streak_invariant (props := kana_props abc)
           [OnStart; OnSubmit false] some_world Hcfg
           ltac:(vm_compute; reflexivity)).
Defined.

Lemma livesLost_counts_every_loss_witness :
  let props := kana_props [JsString "a"] in
  inflight some_world = [] ∧
  match sessionStats
          (run [OnStart; OnSubmit false; OnSubmit true]
             (some_world, initialState)).2
  with
  | Some st => Stats.livesLost st = Stats.wrongAnswers st
  | None => False
  end.
Proof.
  cbv zeta. split; [reflexivity|].
  destruct (sessionStats
              (run (props := kana_props [JsString "a"])
                 [OnStart; OnSubmit false; OnSubmit true]
                 (some_world, initialState)).2) as [st|] eqn:Hst.
  - exact (proj1 (proj2 (livesLost_counts_every_loss
                           (props := kana_props [JsString "a"])
                           [OnStart; OnSubmit false; OnSubmit true]
                           some_world st eq_refl Hst))).
  - vm_compute in Hst. discriminate.
Defined.

Lemma fieldless_objects_share_one_tally_witness :
  let props1 := [("romaji", JsString "a")] in
  let props2 := [("romaji", JsString "b")] in
  lacks_id_fields props1 ∧ lacks_id_fields props2
  ∧ ("toString" ∉ props1.*1) ∧ ("toString" ∉ props2.*1)
  ∧ getItemId (JsObject props1) = getItemId (JsObject props2).
Proof.
  cbv zeta.
  assert (H1 : lacks_id_fields [("romaji", JsString "a")])
    by (repeat split; vm_compute; reflexivity).
  assert (H2 : lacks_id_fields [("romaji", JsString "b")])
    by (repeat split; vm_compute; reflexivity).
  assert (H3 : "toString" ∉ [("romaji", JsString "a")].*1)
    by (apply not_elem_of_cons; split; [discriminate | apply not_elem_of_nil]).
  assert (H4 : "toString" ∉ [("romaji", JsString "b")].*1)
    by (apply not_elem_of_cons; split; [discriminate | apply not_elem_of_nil]).
  split; [exact H1|]. split; [exact H2|]. split; [exact H3|].
  split; [exact H4|].
  exact (proj1 (fieldless_objects_share_one_tally (props := kana_props abc)
                  _ _ H1 H2 H3 H4)).
Defined.

(** * The statistics store *)

Lemma saveAll_snoc saves save stored :
  saveAll (saves ++ [save]) stored
  = (saveSession save.1 save.2 (saveAll saves stored)).1.
Proof. unfold saveAll. by rewrite foldl_app. Qed.

Lemma loadData_version stored : version (loadData stored) = 1.
Proof.
  unfold loadData. destruct stored as [data|]; [|reflexivity].
  destruct (blob_version data =? 1) eqn:Hv; [|reflexivity].
  bools. by destruct (blob_lifetimeTotals data).
Qed.

Lemma loadData_saveData data : version data = 1 → loadData (saveData data) = data.
Proof. intros Hv. destruct data. simpl in *. by subst. Qed.

Lemma at_dojo_update {A} d d' (f : A → A) o :
  at_dojo d (update_dojo d' f o)
  = if decide (d = d') then f (at_dojo d o) else at_dojo d o.
Proof. by destruct d, d'. Qed.

Lemma Zsum_snoc l x : Zsum (l ++ [x]) = Zsum l + x.
Proof. unfold Zsum. induction l as [|y l IH]; simpl; lia. Qed.

Lemma Zmax0_snoc l x : Zmax0 (l ++ [x]) = Z.max (Zmax0 l) x.
Proof.
  unfold Zmax0. induction l as [|y l IH]; simpl; [lia|]. rewrite IH. lia.
Qed.

Lemma Zmax0_nonneg l : 0 ≤ Zmax0 l.
Proof. unfold Zmax0. induction l as [|y l IH]; simpl; lia. Qed.

Lemma running_totals_snoc d saved s :
  running_totals d (saved ++ [s])
  = if decide (d = Stats.dojoType s)
    then accumulate s (running_totals d saved)
    else running_totals d saved.
Proof.
  unfold running_totals. cbv zeta. rewrite filter_app.
  rewrite (filter_cons _ s), filter_nil.
  destruct (decide (d = Stats.dojoType s)) as [->|Hne].
  - rewrite decide_True by done. unfold accumulate.
    cbn [Totals.totalSessions Totals.completedSessions Totals.totalCorrect
         Totals.totalWrong Totals.bestStreak].
    rewrite filter_app, !fmap_app, !length_app.
    change (Stats.correctAnswers <$> [s]) with [Stats.correctAnswers s].
    change (Stats.wrongAnswers <$> [s]) with [Stats.wrongAnswers s].
    change (Stats.bestStreak <$> [s]) with [Stats.bestStreak s].
    rewrite !Zsum_snoc, !Zmax0_snoc.
    rewrite (filter_cons _ s), filter_nil.
    destruct (Stats.completed s) eqn:Hc.
    + rewrite decide_True by done. rewrite ?length_app. simpl. f_equal; lia.
    + rewrite decide_False by done. rewrite ?app_nil_r, ?length_app. simpl. f_equal; lia.
  - rewrite decide_False by done. by rewrite !app_nil_r.
Qed.

Lemma take_cons_take {A} n (x : A) l :
  take (S n) (x :: take (S n) l) = take (S n) (x :: l).
Proof. simpl. f_equal. rewrite take_take. f_equal. lia. Qed.

(** What the store holds after a list of saves on an empty store. *)
Lemma saveAll_data saves :
  let data := loadData (saveAll saves None) in
  (∀ d, at_dojo d (lifetimeTotals data) = running_totals d saves.*2)
  ∧ sessions data
    = take 100 (reverse ((λ save, mkSession save.1 save.2) <$> saves)).
Proof.
  cbv zeta. induction saves as [|save saves [IHt IHs]] using rev_ind.
  { split; [by intros []|reflexivity]. }
  rewrite saveAll_snoc. unfold saveSession. cbv zeta. cbn [fst].
  rewrite loadData_saveData by apply loadData_version.
  cbn [lifetimeTotals sessions]. split.
  - intros d. rewrite at_dojo_update, fmap_app.
    change ([save].*2) with [save.2]. rewrite running_totals_snoc.
    by rewrite IHt.
  - rewrite IHs, fmap_app, reverse_app. simpl.
    set (rest := reverse _). set (x := mkSession _ _).
    case_match.
    + apply (take_cons_take 99).
    + apply Nat.ltb_ge in H. rewrite length_take in H.
      f_equal. rewrite !take_ge by lia. reflexivity.
Qed.

(** C8.  After any list of saves on an empty store, however long, the
    lifetime totals of each dojo are the counts, the sums and the best
    streak over every session saved, while the list of sessions keeps the
    latest hundred only. *)
Theorem lifetime_totals_survive_trimming saves d :
  let data := loadData (saveAll saves None) in
  at_dojo d (lifetimeTotals data) = running_totals d saves.*2
  ∧ (getOverallStats d (saveAll saves None)).1 = running_totals d saves.*2
  ∧ sessions data
    = take 100 (reverse ((λ save, mkSession save.1 save.2) <$> saves))
  ∧ length (sessions data) = (length saves `min` 100)%nat.
Proof.
  cbv zeta. destruct (saveAll_data saves) as [Ht Hs].
  split; [apply Ht|]. split; [apply Ht|]. split; [exact Hs|].
  rewrite Hs, length_take, length_reverse, length_fmap. lia.
Qed.

(** ** Best times *)

Lemma fastest_snoc d key saved s :
  fastest d key (saved ++ [s])
  = if decide (Stats.completed s = true ∧ Stats.dojoType s = d
               ∧ key_of s = key)
    then Some (match fastest d key saved with
               | Some b => Z.min b (Stats.totalTimeMs s)
               | None => Stats.totalTimeMs s
               end)
    else fastest d key saved.
Proof.
  unfold fastest, min_time. rewrite filter_app, fmap_app, foldl_app.
  rewrite (filter_cons _ s), filter_nil.
  case_decide; [reflexivity | by rewrite ?app_nil_r].
Qed.

Lemma fastest_nonzero d key saved b :
  (∀ s, s ∈ saved → Stats.completed s = true → Stats.totalTimeMs s ≠ 0) →
  fastest d key saved = Some b → b ≠ 0.
Proof.
  induction saved as [|s saved IH] using rev_ind in b |- *; [discriminate|].
  intros Hnz. rewrite fastest_snoc.
  assert (Hs : Stats.completed s = true → Stats.totalTimeMs s ≠ 0)
    by (apply Hnz, elem_of_app; right; apply list_elem_of_singleton; done).
  assert (Hsaved : ∀ s', s' ∈ saved → Stats.completed s' = true →
                         Stats.totalTimeMs s' ≠ 0)
    by (intros; apply Hnz; [apply elem_of_app; by left | done]).
  case_decide as Hmatch; [|by apply IH].
  destruct Hmatch as (Hc & _). specialize (Hs Hc).
  destruct (fastest d key saved) as [b'|] eqn:Hf; intros [= <-]; [|done].
  specialize (IH b' Hsaved eq_refl). lia.
Qed.

(** X20.  When no completed run took 0 ms, the stored best of every slot
    is the least time of the completed runs saved for it. *)
Lemma best_time_is_fastest_nonzero saves d key :
  (∀ s, s ∈ saves.*2 → Stats.completed s = true → Stats.totalTimeMs s ≠ 0) →
  at_dojo d (bestTimes (loadData (saveAll saves None))) !! key
  = fastest d key saves.*2.
Proof.
  induction saves as [|save saves IH] using rev_ind; intros Hnz.
  { by destruct d. }
  rewrite fmap_app in *. change ([save].*2) with [save.2] in *.
  assert (Hsaved : ∀ s, s ∈ saves.*2 → Stats.completed s = true →
                        Stats.totalTimeMs s ≠ 0)
    by (intros; apply Hnz; [apply elem_of_app; by left | done]).
  specialize (IH Hsaved).
  rewrite saveAll_snoc, fastest_snoc. unfold saveSession. cbv zeta. cbn [fst].
  rewrite loadData_saveData by apply loadData_version. cbn [bestTimes].
  set (data := loadData (saveAll saves None)) in *.
  set (s := save.2) in *. fold (key_of s).
  destruct (Stats.completed s) eqn:Hc; cbn [andb].
  2:{ rewrite decide_False by (intros (? & _); done). exact IH. }
  destruct (decide (Stats.dojoType s = d ∧ key_of s = key)) as [[<- <-]|Hne].
  - rewrite decide_True by done. rewrite IH.
    destruct (fastest (Stats.dojoType s) (key_of s) saves.*2) as [b|] eqn:Hf.
    + pose proof (fastest_nonzero _ _ _ _ Hsaved Hf) as Hb.
      simpl. rewrite (proj2 (Z.eqb_neq _ _) Hb). simpl.
      destruct (Stats.totalTimeMs s <? b) eqn:Hlt; bools.
      * rewrite at_dojo_update, decide_True by done.
        rewrite lookup_insert_eq. f_equal. lia.
      * rewrite IH. f_equal. lia.
    + simpl. rewrite at_dojo_update, decide_True by done.
      by rewrite lookup_insert_eq.
  - rewrite decide_False by (intros (_ & ? & ?); by apply Hne).
    case_match; [|exact IH].
    rewrite at_dojo_update. case_decide as Hd; [|exact IH].
    rewrite lookup_insert_ne; [exact IH|]. intros Hk. apply Hne. by subst.
Qed.

(** C7, where the code departs from it.  Two completed kana runs of the
    same configuration are saved on an empty store, the first of 0 ms and
    the second of 5 ms.  The least time saved is 0; the second save reports
    a new best although 0 is stored and 5 is not lower, and the store then
    gives 5 as the best time. *)
Theorem best_time_zero_is_overwritten :
  let saves := [("gauntlet-1-aaaaaaa", kana_run 0);
                ("gauntlet-2-bbbbbbb", kana_run 5)] in
  let after_first := saveAll (take 1 saves) None in
  getBestTime kana "normal" 1 Pick 1 after_first = Some 0
  ∧ (saveSession "gauntlet-2-bbbbbbb" (kana_run 5) after_first).2 = true
  ∧ getBestTime kana "normal" 1 Pick 1 (saveAll saves None) = Some 5
  ∧ fastest kana (key_of (kana_run 5)) saves.*2 = Some 0.
Proof. vm_compute. repeat split; reflexivity. Qed.

(** When [saveSession] reports a new best: the run is completed and the
    slot is empty, or holds 0, or holds a greater time. *)
Lemma saveSession_isNewBest sessionId s stored :
  (saveSession sessionId s stored).2 = true
  ↔ Stats.completed s = true
    ∧ match getBestTime (Stats.dojoType s) (Stats.difficulty s)
              (Stats.repetitionsPerChar s) (Stats.gameMode s)
              (Stats.totalCharacters s) stored with
      | None => True
      | Some best => best = 0 ∨ Stats.totalTimeMs s < best
      end.
Proof.
  unfold saveSession, getBestTime. cbv zeta. cbn [snd].
  destruct (Stats.completed s); cbn [andb]; [|split; [done|by intros []]].
  destruct (at_dojo _ _ !! _) as [best|]; simpl; [|done].
  rewrite orb_true_iff, Z.eqb_eq, Z.ltb_lt. tauto.
Qed.

(** * Further properties of the session machine *)

(** ** The generated queue *)

Lemma swap_Permutation {A} i j (queue : list A) : swap i j queue ≡ₚ queue.
Proof.
  unfold swap. destruct (queue !! i) as [qi|] eqn:Hi; [|done].
  destruct (queue !! j) as [qj|] eqn:Hj; [|done].
  by apply Permutation_insert_swap.
Qed.

Lemma fisher_yates_Permutation {A} i (queue : list A) random :
  (fisher_yates i queue random).1 ≡ₚ queue.
Proof.
  induction i as [|i IH] in queue, random |- *; [done|].
  cbn [fisher_yates]. unfold integer. cbn [fst snd].
  rewrite IH. apply swap_Permutation.
Qed.

Lemma length_expansion {A B} (f : A → Z → B) (items : list A) reps :
  length (items ≫= (λ item, f item <$> seqZ 1 reps))
  = (length items * Z.to_nat reps)%nat.
Proof.
  induction items as [|x items IH]; [done|].
  cbn [mbind list_bind]. change (list_bind ?f ?l) with (l ≫= f).
  rewrite length_app, length_fmap, length_seqZ, IH. cbn [length]. lia.
Qed.

Lemma generateQuestionQueue_length items repetitions random :
  length (generateQuestionQueue items repetitions random).1
  = (length items * Z.to_nat repetitions)%nat.
Proof.
  unfold generateQuestionQueue. set (made := items ≫= _).
  pose proof (fisher_yates_Permutation (length made - 1) made random) as Hperm.
  destruct (fisher_yates (length made - 1) made random) as [shuffled random'].
  cbn [fst] in *. rewrite length_imap, Hperm. apply length_expansion.
Qed.

(** X1.  Whatever the draws, [generateQuestionQueue] returns
    [items.length * repetitions] entries (none for [repetitions <= 0]);
    they are a reordering of the entries made in the two nested loops, each
    item with each repetition number from 1 to [repetitions] once; and the
    [index] of each entry is its position in the queue. *)
Theorem generateQuestionQueue_is_numbered_permutation items repetitions random :
  let queue := (generateQuestionQueue items repetitions random).1 in
  length queue = (length items * Z.to_nat repetitions)%nat
  ∧ (λ q, (item q, repetitionNumber q)) <$> queue
    ≡ₚ items ≫= (λ item, (λ rep, (item, rep)) <$> seqZ 1 repetitions)
  ∧ ∀ i q, queue !! i = Some q → index q = Z.of_nat i.
Proof.
  cbv zeta. unfold generateQuestionQueue.
  set (made := items ≫= _).
  pose proof (fisher_yates_Permutation (length made - 1) made random) as Hperm.
  destruct (fisher_yates (length made - 1) made random) as [shuffled random'].
  cbn [fst] in *. split; [|split].
  - rewrite length_imap, Hperm. apply length_expansion.
  - rewrite fmap_imap.
    replace (imap _ shuffled)
      with ((λ q, (item q, repetitionNumber q)) <$> shuffled).
    2:{ clear. generalize 0%nat. intros n.
        transitivity (imap (λ _ q, (item q, repetitionNumber q)) shuffled);
          [|by apply imap_ext].
        clear. induction shuffled as [|q l IH]; [done|].
        cbn. f_equal. rewrite IH. by apply imap_ext. }
    rewrite Hperm. unfold made. clear.
    induction items as [|x items IH]; [done|].
    cbn [mbind list_bind]. change (list_bind ?f ?l) with (l ≫= f).
    rewrite fmap_app, IH, <- list_fmap_compose. done.
  - intros i q. rewrite list_lookup_imap.
    destruct (shuffled !! i); intros [= <-]. reflexivity.
Qed.

(** ** The regeneration threshold *)

Lemma round53_lower p :
  0 < p →
  0 ≤ (round53 p).2
  ∧ p / 2 ^ (round53 p).2 ≤ (round53 p).1
  ∧ (0 < (round53 p).2 → 2 ^ 52 ≤ (round53 p).1).
Proof.
  intros Hp. unfold round53.
  destruct (Z.log2 p + 1 <=? 53) eqn:Hbits; bools; cbn [fst snd].
  { rewrite Z.pow_0_r, Z.div_1_r. lia. }
  set (sh := Z.log2 p + 1 - 53).
  assert (Hsh : 0 < sh) by (unfold sh; lia).
  assert (Hq0 : 2 ^ 52 ≤ Z.shiftr p sh).
  { rewrite Z.shiftr_div_pow2 by lia.
    apply Z.div_le_lower_bound; [apply Z.pow_pos_nonneg; lia|].
    rewrite <- Z.pow_add_r by lia.
    replace (sh + 52) with (Z.log2 p) by (unfold sh; lia).
    apply Z.log2_spec. lia. }
  case_match; cbn [fst snd]; fold sh;
    rewrite <- Z.shiftr_div_pow2 by lia; lia.
Qed.

Lemma ceil_times_tenth_large n : 200 ≤ n → 20 ≤ ceil_times_tenth n.
Proof.
  intros Hn. unfold ceil_times_tenth.
  rewrite Z.abs_eq by lia.
  assert (Hp : 20 * 2 ^ 55 ≤ n * tenth_mantissa).
  { unfold tenth_mantissa. change (2 ^ 55) with 36028797018963968. lia. }
  destruct (round53_lower (n * tenth_mantissa)) as (Hsh & Hq & Hbig);
    [unfold tenth_mantissa; lia|].
  destruct (round53 (n * tenth_mantissa)) as [q sh]. cbn [fst snd] in *.
  unfold tenth_exponent.
  destruct (0 <=? sh + -55) eqn:He; bools.
  - rewrite Z.sgn_pos by lia.
    pose proof (Z.pow_pos_nonneg 2 (sh + -55) ltac:(lia) ltac:(lia)).
    change (2 ^ 52) with 4503599627370496 in Hbig.
    specialize (Hbig ltac:(lia)). nia.
  - rewrite (proj2 (Z.leb_le 0 n)) by lia.
    set (d := 2 ^ (- (sh + -55))).
    assert (Hd : 0 < d) by (apply Z.pow_pos_nonneg; lia).
    assert (Hpow : 2 ^ 55 = d * 2 ^ sh).
    { unfold d. rewrite <- Z.pow_add_r by lia. f_equal. lia. }
    assert (Hsh' : 0 < 2 ^ sh) by (apply Z.pow_pos_nonneg; lia).
    assert (20 * d ≤ q).
    { etrans; [|exact Hq]. apply Z.div_le_lower_bound; [lia|]. nia. }
    apply Z.div_le_lower_bound; lia.
Qed.

Lemma calculateRegenThreshold_small n :
  0 ≤ n ≤ 200 →
  calculateRegenThreshold n = Z.max 5 (Z.min 20 ((n + 9) / 10)).
Proof.
  intros Hn.
  assert (Hall : forallb
            (λ n, calculateRegenThreshold n
                  =? Z.max 5 (Z.min 20 ((n + 9) / 10)))
            (seqZ 0 201) = true) by (vm_compute; reflexivity).
  rewrite forallb_forall in Hall.
  apply Z.eqb_eq, Hall, list_elem_of_In, elem_of_seqZ. lia.
Qed.

(** X2.  For every number of questions (an integer that a double holds
    exactly), the threshold computed with the
    double-precision product [totalQuestions * 0.1] is the exact
    one: a tenth of the questions rounded up, held between 5 and 20.  The
    rounding of [0.1] never moves it. *)
Theorem calculateRegenThreshold_exact n :
  0 ≤ n < 2 ^ 53 →
  calculateRegenThreshold n = Z.max 5 (Z.min 20 ((n + 9) / 10)).
Proof.
  intros [Hn _]. destruct (decide (n ≤ 200)) as [Hsmall|Hlarge].
  { apply calculateRegenThreshold_small. lia. }
  unfold calculateRegenThreshold.
  pose proof (ceil_times_tenth_large n ltac:(lia)).
  assert (20 ≤ (n + 9) / 10) by (apply Z.div_le_lower_bound; lia).
  lia.
Qed.

(** ** Cursor and queue *)

Section Bookkeeping.

Context {props : GauntletProps}.

Lemma submitAnswer_ignored b w s :
  currentQuestion s = None → submitAnswer b w s = (w, s).
Proof. intros Hq. unfold submitAnswer. by rewrite Hq. Qed.

Lemma entry_None {A} (queue : list A) i :
  entry queue i = None ↔ i < 0 ∨ Z.of_nat (length queue) ≤ i.
Proof.
  unfold entry. case_match; bools; [split; [lia|done]|].
  rewrite lookup_ge_None. lia.
Qed.

Lemma entry_is_Some {A} (queue : list A) i :
  0 ≤ i < Z.of_nat (length queue) → is_Some (entry queue i).
Proof.
  intros Hi. unfold entry. rewrite (proj2 (Z.ltb_ge _ _)) by lia.
  apply lookup_lt_is_Some. lia.
Qed.

Lemma requeue_length currentIndex maxQueueSize prev random q :
  entry prev currentIndex = Some q →
  Z.of_nat (length (requeue currentIndex maxQueueSize prev random).1)
  = if maxQueueSize <=? Z.of_nat (length prev) then Z.of_nat (length prev)
    else Z.of_nat (length prev) + 1.
Proof.
  intros Hq. destruct (maxQueueSize <=? Z.of_nat (length prev)) eqn:Hcap; bools.
  - by rewrite requeue_capped.
  - destruct (requeue_below_cap currentIndex maxQueueSize prev random q)
      as [-> _]; [lia | done |].
    rewrite length_app. cbn [length]. rewrite length_take, length_drop. lia.
Qed.

Lemma submitAnswer_bookkeeping (b : bool) w s q charId :
  currentQuestion s = Some q →
  getItemId (item q) = Returned charId →
  (if b then (lives s <=? 0) || (totalQuestions s <=? correctAnswers s + 1)
   else lives s - 1 <=? 0) = false →
  bookkeeping s → bookkeeping (submitAnswer b w s).2.
Proof.
  intros Hq Hid Hgoes Hinv.
  pose proof (entry_Some _ _ _ Hq) as Hi.
  pose proof (λ random, requeue_length (currentIndex s)
                (totalQuestions s * 3) (questionQueue s) random q Hq) as Hlen.
  unfold bookkeeping in *.
  open_submit w s. rewrite Hq, Hid.
  destruct b.
  - apply orb_false_iff in Hgoes as [H1 H2]. rewrite H1, H2. bools.
    repeat case_match; simpl in *; unfold totalQuestions in *; simpl in *;
      lia.
  - rewrite Hgoes. bools. simpl in *.
    match goal with
    | |- context [requeue ?i ?m ?p ?r] => specialize (Hlen r)
    end.
    unfold totalQuestions in *; simpl in *.
    repeat case_match; bools; lia.
Qed.

Lemma handleStart_bookkeeping w s : bookkeeping (handleStart w s).2.
Proof.
  destruct (handleStart_state w s) as
    (_ & Hq & Hi & _ & _ & _ & _ & Hc & Hw & _ & _ & _ & _ & _ & Hr & _).
  unfold bookkeeping, totalQuestions. rewrite Hq, Hi, Hc, Hw, Hr.
  rewrite generateQuestionQueue_length.
  destruct (decide (0 ≤ repetitions s)).
  - rewrite Nat2Z.inj_mul, Z2Nat.id by lia. nia.
  - rewrite Z2Nat.nonpos by lia. nia.
Qed.

Lemma step_bookkeeping_inv e ws :
  result_inv ws → bookkeeping_inv ws → bookkeeping_inv (step e ws).
Proof.
  intros Hres Hinv. destruct ws as [w s]. unfold step. cbn [fst snd] in *.
  destruct e.
  10:{ pose proof (settle_inflight k w) as Hk.
    destruct (settle k w).2 as [newBest|].
    - destruct Hres as [Hres _]. destruct (Hres Hk) as [st Hst].
      cbn [snd] in Hst.
      destruct (screen s) eqn:Hscreen;
        intros Hscreen' _; cbn [snd] in Hscreen'; try congruence.
      all: unfold screen, endGame_resumed in Hscreen'; simpl in Hscreen'.
      all: rewrite Hst in Hscreen'; repeat case_match; discriminate.
    - assert (bookkeeping_inv ((settle k w).1, s)) as Hgoal.
      { intros Hscreen Hnone. apply Hinv; [done|]. cbn [fst] in *.
        rewrite Hnone in Hk. by destruct (inflight w). }
      by destruct (screen s). }
  all: destruct (screen s) eqn:Hscreen; try assumption.
  - case_match; [|assumption]. intros _ _. apply handleStart_bookkeeping.
  - intros _ _. apply handleStart_bookkeeping.
  - intros Hscreen' _. change (screen s = ActiveGame) in Hscreen'. congruence.
  - destruct (currentQuestion s) as [q|] eqn:Hq.
    2:{ unfold submitAnswer. by rewrite Hq. }
    destruct (ActiveGame_has_id s q Hscreen Hq) as [charId Hid].
    destruct (submitAnswer_ends_or_not isCorrect w s q charId Hq Hid)
      as (_ & _ & Hend).
    pose proof (submitAnswer_bookkeeping isCorrect w s q charId Hq Hid)
      as Hkeeps.
    intros _ Hnone. destruct (if isCorrect then _ else _).
    + destruct Hend as ((stats & Hin & _) & _). rewrite Hin in Hnone.
      by destruct (inflight w).
    + destruct Hend as (Hin & _). rewrite Hin in Hnone.
      apply Hkeeps; [done|]. by apply Hinv.
  - unfold handleCancel. case_match; [assumption|].
    intros Hscreen' _. unfold screen in Hscreen'. simpl in Hscreen'.
    repeat case_match; discriminate.
  - intros _ _. apply handleStart_bookkeeping.
  - intros Hscreen' _. unfold screen in Hscreen'. simpl in Hscreen'.
    repeat case_match; discriminate.
Qed.

Lemma run_bookkeeping_inv events w :
  inflight w = [] → bookkeeping_inv (run events (w, initialState)).
Proof.
  intros Hw. induction events as [|e events IH] using rev_ind.
  - intros Hscreen. unfold screen in Hscreen. simpl in Hscreen.
    repeat case_match; discriminate.
  - rewrite run_snoc.
    apply step_bookkeeping_inv; [by apply run_result_inv | exact IH].
Qed.

(** X3.  Whatever the events since the first render (at which no save is
    in flight), while the game is on screen and no save is in flight: the
    cursor is the number of answers given
    ([correctAnswers + wrongAnswers]); the queue holds the target
    [items.length * repetitions] plus one entry for each wrong answer, up to
    three times the target; and as long as the wrong answers are no more
    than twice the target, there is a question under the cursor. *)
Theorem cursor_and_queue_bookkeeping events w :
  inflight w = [] →
  let ws := run events (w, initialState) in
  screen ws.2 = ActiveGame →
  inflight ws.1 = [] →
  currentIndex ws.2 = correctAnswers ws.2 + wrongAnswers ws.2
  ∧ Z.of_nat (length (questionQueue ws.2))
    = Z.max 0 (Z.min (totalQuestions ws.2 + wrongAnswers ws.2)
                 (3 * totalQuestions ws.2))
  ∧ (0 < totalQuestions ws.2 → wrongAnswers ws.2 ≤ 2 * totalQuestions ws.2 →
     is_Some (currentQuestion ws.2)).
Proof.
  intros Hw ws Hscreen Hnone.
  destruct (run_bookkeeping_inv events w Hw Hscreen Hnone)
    as (Hc & Hw' & Hi & Hl & Ht).
  fold ws in Hc, Hw', Hi, Hl, Ht.
  split; [exact Hi|]. split; [exact Hl|].
  intros Htotal Hwrong. apply entry_is_Some. lia.
Qed.

End Bookkeeping.

(** ** One answer *)

Section OneAnswer.

Context {props : GauntletProps}.

Lemma submitAnswer_wrong_queue w s q :
  currentQuestion s = Some q →
  questionQueue (submitAnswer false w s).2 = questionQueue s
  ∨ questionQueue (submitAnswer false w s).2
    = (requeue (currentIndex s) (totalQuestions s * 3) (questionQueue s)
         (random w)).1.
Proof.
  intros Hq. open_submit w s. rewrite Hq.
  repeat case_match; simpl; auto.
Qed.

Lemma submitAnswer_correct_queue w s :
  questionQueue (submitAnswer true w s).2 = questionQueue s.
Proof.
  destruct (currentQuestion s) as [q|] eqn:Hq.
  2:{ by rewrite submitAnswer_ignored. }
  open_submit w s. rewrite Hq. by repeat case_match.
Qed.

Lemma submitAnswer_cursor b w s :
  currentIndex (submitAnswer b w s).2 = currentIndex s
  ∨ currentIndex (submitAnswer b w s).2 = currentIndex s + 1.
Proof.
  destruct (currentQuestion s) as [q|] eqn:Hq.
  2:{ left. by rewrite submitAnswer_ignored. }
  open_submit w s. rewrite Hq. repeat case_match; simpl; auto.
Qed.

(** X4.  An answer never moves the cursor back, and moves it on by one at
    most; it never removes or reorders an entry of the queue (the old queue
    is a sublist of the new one, longer by one entry at most); and the
    entries up to and including the one under the cursor stay as they
    are. *)
Theorem answer_keeps_history b w s :
  let s' := (submitAnswer b w s).2 in
  currentIndex s ≤ currentIndex s' ≤ currentIndex s + 1
  ∧ questionQueue s `sublist_of` questionQueue s'
  ∧ (length (questionQueue s') ≤ S (length (questionQueue s)))%nat
  ∧ take (Z.to_nat (currentIndex s + 1)) (questionQueue s')
    = take (Z.to_nat (currentIndex s + 1)) (questionQueue s).
Proof.
  cbv zeta. split; [destruct (submitAnswer_cursor b w s); lia|].
  destruct (currentQuestion s) as [q|] eqn:Hq.
  2:{ rewrite submitAnswer_ignored by done. cbn [snd]. split; [done|]. 
      split; [lia|done]. }
  destruct b.
  { rewrite submitAnswer_correct_queue. split; [done|]. split; [lia|done]. }
  destruct (submitAnswer_wrong_queue w s q Hq) as [-> | ->];
    [split; [done|]; split; [lia|done]|].
  destruct (totalQuestions s * 3 <=? Z.of_nat (length (questionQueue s)))
    eqn:Hcap; bools.
  { rewrite requeue_capped by done. cbn [fst].
    split; [done|]. split; [lia|done]. }
  destruct (requeue_below_cap (currentIndex s) (totalQuestions s * 3)
              (questionQueue s) (random w) q) as [-> Hoff]; [lia | done |].
  pose proof (entry_Some _ _ _ Hq) as Hi.
  set (pos := Z.to_nat _) in *.
  assert (Hpos : (Z.to_nat (currentIndex s + 1) ≤ pos)%nat)
    by (unfold pos; lia).
  split; [|split].
  - rewrite <- (take_drop pos (questionQueue s)) at 1.
    apply sublist_app; [done|]. by apply sublist_cons.
  - rewrite length_app. cbn [length]. rewrite length_take, length_drop. lia.
  - rewrite take_app_le by (rewrite length_take; lia).
    rewrite take_take. f_equal. lia.
Qed.

(** X5.  The last life: a wrong answer to the question on screen with one
    life (or none) left ends the session.  Once the save of the result has
    settled (with no event in between) the phase is [results]; the result
    is not completed, has the lives that are left and all the answers
    including this one; nothing is put back in the queue and the cursor
    stays. *)
Theorem last_life_lost_ends_session w s q :
  screen s = ActiveGame →
  currentQuestion s = Some q →
  lives s ≤ 1 →
  let k := length (inflight w) in
  let s' := (run [OnSubmit false; Settled k; Settled k] (w, s)).2 in
  phase s' = results
  ∧ questionQueue s' = questionQueue s
  ∧ currentIndex s' = currentIndex s
  ∧ lives s' = lives s - 1
  ∧ ∃ st, sessionStats s' = Some st
          ∧ Stats.completed st = false
          ∧ Stats.livesRemaining st = lives s - 1
          ∧ Stats.correctAnswers st = correctAnswers s
          ∧ Stats.wrongAnswers st = wrongAnswers s + 1
          ∧ Stats.questionsCompleted st = currentIndex s + 1.
Proof.
  intros Hscreen Hq Hlives. cbv zeta.
  destruct (ActiveGame_has_id s q Hscreen Hq) as [charId Hid].
  rewrite run_cons, (step_OnSubmit false w s Hscreen).
  assert (Hanswer : ∃ stats,
    inflight (submitAnswer false w s).1 = inflight w ++ [Loading stats]
    ∧ sessionStats (submitAnswer false w s).2 = Some stats
    ∧ questionQueue (submitAnswer false w s).2 = questionQueue s
    ∧ currentIndex (submitAnswer false w s).2 = currentIndex s
    ∧ lives (submitAnswer false w s).2 = lives s - 1
    ∧ Stats.completed stats = false
    ∧ Stats.livesRemaining stats = lives s - 1
    ∧ Stats.correctAnswers stats = correctAnswers s
    ∧ Stats.wrongAnswers stats = wrongAnswers s + 1
    ∧ Stats.questionsCompleted stats = currentIndex s + 1).
  { open_submit w s. rewrite Hq, Hid.
    rewrite (proj2 (Z.leb_le (lives s - 1) 0)) by lia. cbn.
    eexists. repeat split. }
  destruct Hanswer as (stats & Hin & Hstats & Hqueue & Hindex & Hl & Hst).
  destruct (submitAnswer false w s) as [w1 s1]. cbn [fst snd] in *.
  destruct (last_save_settles w1 s1 stats (inflight w) Hin)
    as (w2 & newBest & -> & _).
  { apply (screen_not_RenderError s); [done | done |]. by rewrite Hscreen. }
  cbn. do 4 (split; [done|]). by exists stats.
Qed.

(** X6.  The answer that completes the session is missing from part of its
    result.  When a correct answer brings [correctAnswers] to the target,
    the state counts it in the streaks and in the tally of its item, but
    the result (built by the [endGame] of the render before, and on the
    results screen once its save has settled) has the streaks, the per-item
    tallies and the regeneration count from before that answer, next to a
    [correctAnswers] that includes it. *)
Theorem final_answer_missing_from_result w s q :
  screen s = ActiveGame →
  currentQuestion s = Some q →
  0 < lives s →
  totalQuestions s ≤ correctAnswers s + 1 →
  let k := length (inflight w) in
  let s' := (run [OnSubmit true; Settled k; Settled k] (w, s)).2 in
  phase s' = results
  ∧ currentStreak s' = currentStreak s + 1
  ∧ bestStreak s' = Z.max (bestStreak s) (currentStreak s + 1)
  ∧ (∃ charId,
       getItemId (item q) = Returned charId
       ∧ correct_of (characterStats s') charId
         = correct_of (characterStats s) charId + 1)
  ∧ ∃ st, sessionStats s' = Some st
          ∧ Stats.completed st = true
          ∧ Stats.correctAnswers st = correctAnswers s + 1
          ∧ Stats.currentStreak st = currentStreak s
          ∧ Stats.bestStreak st = bestStreak s
          ∧ Stats.characterStats st = characterStats s
          ∧ Stats.livesRegenerated st = livesRegenerated s
          ∧ Stats.livesRemaining st = lives s.
Proof.
  intros Hscreen Hq Hlives Htotal. cbv zeta.
  destruct (ActiveGame_has_id s q Hscreen Hq) as [charId Hid].
  rewrite run_cons, (step_OnSubmit true w s Hscreen).
  assert (Hanswer : ∃ stats,
    inflight (submitAnswer true w s).1 = inflight w ++ [Loading stats]
    ∧ sessionStats (submitAnswer true w s).2 = Some stats
    ∧ questionQueue (submitAnswer true w s).2 = questionQueue s
    ∧ currentIndex (submitAnswer true w s).2 = currentIndex s
    ∧ currentStreak (submitAnswer true w s).2 = currentStreak s + 1
    ∧ bestStreak (submitAnswer true w s).2
      = Z.max (bestStreak s) (currentStreak s + 1)
    ∧ correct_of (characterStats (submitAnswer true w s).2) charId
      = correct_of (characterStats s) charId + 1
    ∧ Stats.completed stats = true
    ∧ Stats.correctAnswers stats = correctAnswers s + 1
    ∧ Stats.currentStreak stats = currentStreak s
    ∧ Stats.bestStreak stats = bestStreak s
    ∧ Stats.characterStats stats = characterStats s
    ∧ Stats.livesRegenerated stats = livesRegenerated s
    ∧ Stats.livesRemaining stats = lives s).
  { open_submit w s. rewrite Hq, Hid.
    rewrite (proj2 (Z.leb_gt (lives s) 0)) by lia.
    rewrite (proj2 (Z.leb_le _ _) Htotal).
    assert (Hcorrect : ∀ m : gmap string CharacterStat,
      correct_of
        (<[charId := mkCharacterStat (correct_of m charId + 1)
                       (wrong_of m charId)]> m) charId
      = correct_of m charId + 1).
    { intros m. unfold correct_of at 1. by rewrite lookup_insert_eq. }
    repeat case_match; simpl in *; bools; rewrite ?Hcorrect;
      eexists; do 5 (split; [reflexivity|]);
      (split; [lia|]); (split; [reflexivity|]); by unfold endGame_stats. }
  destruct Hanswer as
    (stats & Hin & Hstats & Hqueue & Hindex & Hc & Hb & Hchar & Hst).
  destruct (submitAnswer true w s) as [w1 s1]. cbn [fst snd] in *.
  destruct (last_save_settles w1 s1 stats (inflight w) Hin)
    as (w2 & newBest & -> & _).
  { apply (screen_not_RenderError s); [done | done |]. by rewrite Hscreen. }
  cbn. do 3 (split; [done|]). split; [by exists charId|]. by exists stats.
Qed.

End OneAnswer.

(** ** A session without a mistake *)

Section PerfectRun.

Context {props : GauntletProps}.

(** Every entry of the generated queue is on one of the items. *)
Lemma generateQuestionQueue_items items repetitions random q :
  q ∈ (generateQuestionQueue items repetitions random).1 → item q ∈ items.
Proof.
  unfold generateQuestionQueue. set (made := items ≫= _).
  pose proof (fisher_yates_Permutation (length made - 1) made random) as Hperm.
  destruct (fisher_yates (length made - 1) made random) as [shuffled random'].
  cbn [fst] in *. intros Hq.
  apply list_elem_of_lookup in Hq as [i Hq].
  rewrite list_lookup_imap in Hq.
  destruct (shuffled !! i) as [q0|] eqn:Hq0; [|done].
  injection Hq as <-. cbn [item].
  apply list_elem_of_lookup_2 in Hq0. rewrite Hperm in Hq0.
  unfold made in Hq0. apply list_elem_of_bind in Hq0 as (it & Hq0 & Hit).
  apply list_elem_of_fmap in Hq0 as (rep & -> & _). exact Hit.
Qed.

Lemma submitAnswer_correct_streak w s q charId :
  currentQuestion s = Some q →
  getItemId (item q) = Returned charId →
  let s' := (submitAnswer true w s).2 in
  currentStreak s' = currentStreak s + 1
  ∧ bestStreak s' = Z.max (bestStreak s) (currentStreak s + 1)
  ∧ wrongAnswers s' = wrongAnswers s.
Proof.
  intros Hq Hid. cbv zeta. open_submit w s. rewrite Hq, Hid.
  repeat case_match; simpl in *; bools; repeat split; lia.
Qed.

(** [k] correct answers that do not reach the target yet, with all the
    lives. *)
Lemma correct_answers_advance (k : nat) w s :
  items ≠ [] → phase s = playing →
  0 < lives s → lives s = maxLives s →
  currentStreak s ≤ bestStreak s →
  0 ≤ currentIndex s →
  (∀ q, q ∈ questionQueue s → has_id (item q)) →
  currentIndex s + Z.of_nat k ≤ Z.of_nat (length (questionQueue s)) →
  correctAnswers s + Z.of_nat k < totalQuestions s →
  let ws' := run (replicate k (OnSubmit true)) (w, s) in
  let s' := ws'.2 in
  inflight ws'.1 = inflight w
  ∧ phase s' = playing
  ∧ lives s' = lives s ∧ maxLives s' = maxLives s
  ∧ repetitions s' = repetitions s
  ∧ questionQueue s' = questionQueue s
  ∧ currentIndex s' = currentIndex s + Z.of_nat k
  ∧ correctAnswers s' = correctAnswers s + Z.of_nat k
  ∧ wrongAnswers s' = wrongAnswers s
  ∧ currentStreak s' = currentStreak s + Z.of_nat k
  ∧ bestStreak s' = Z.max (bestStreak s) (currentStreak s + Z.of_nat k)
  ∧ livesRegenerated s' = livesRegenerated s.
Proof.
  intros Hitems Hphase Hlives Hmax Hstreak Hidx Hids.
  induction k as [|k IH]; intros Hlen Htotal.
  { cbn. repeat split; try done; lia. }
  cbv zeta. replace (replicate (S k) (OnSubmit true))
    with (replicate k (OnSubmit true) ++ [OnSubmit true])
    by (by rewrite <- replicate_S_end).
  rewrite run_snoc.
  destruct IH as (IHf & IHp & IHl & IHm & IHr & IHq & IHi & IHc & IHw & IHs
                  & IHb & IHg); [lia | lia |].
  destruct (run (replicate k (OnSubmit true)) (w, s)) as [wk sk].
  cbn [fst snd] in *.
  destruct (entry_is_Some (questionQueue sk) (currentIndex sk)) as [q Hq];
    [rewrite IHq, IHi; lia|].
  change (currentQuestion sk = Some q) in Hq.
  assert (Hin : q ∈ questionQueue s).
  { unfold currentQuestion, entry in Hq. rewrite IHq in Hq.
    case_match; [done|]. by eapply list_elem_of_lookup_2. }
  destruct (has_id_Returned _ (Hids q Hin)) as [charId Hid].
  rewrite step_OnSubmit.
  2:{ apply ActiveGame_intro; [done | done |].
      intros q' Hq'. rewrite Hq in Hq'. injection Hq' as <-. by apply Hids. }
  destruct (submitAnswer_correct wk sk q charId Hq Hid) as
    (Hm & _ & _ & Hr & Hqq & Hc & Hl & _ & Hp & Hi & _); [lia|].
  destruct (submitAnswer_correct_streak wk sk q charId Hq Hid)
    as (Hs & Hb & Hw).
  specialize (Hi ltac:(unfold totalQuestions in *; rewrite IHr, IHc; lia)).
  destruct (submitAnswer_ends_or_not true wk sk q charId Hq Hid)
    as (_ & _ & Hend).
  rewrite (proj2 (Z.leb_gt (lives sk) 0)) in Hend by lia.
  rewrite (proj2 (Z.leb_gt (totalQuestions sk) (correctAnswers sk + 1)))
    in Hend by (unfold totalQuestions in *; rewrite IHr, IHc; lia).
  destruct Hend as (Hf & _).
  assert (Hg : livesRegenerated (submitAnswer true wk sk).2
               = livesRegenerated sk).
  { clear -Hq Hid IHl IHm Hmax. open_submit wk sk. rewrite Hq, Hid.
    rewrite (proj2 (Z.ltb_ge (lives sk) (maxLives sk))) by lia.
    rewrite andb_false_r. by repeat case_match. }
  rewrite Hf, Hm, Hr, Hqq, Hc, Hl, Hp, Hi, Hs, Hb, Hw, Hg.
  rewrite (proj2 (Z.ltb_ge (lives sk) (maxLives sk))) by lia.
  rewrite andb_false_r. cbn [andb].
  repeat split; try done; lia.
Qed.

(** X7.  A session in which every answer is correct: with at least one
    item (each with an identifier), at least one repetition and at least
    one starting life, after the start, exactly
    [items.length * repetitions] correct answers and the settlement of the
    save, the session is over and completed, no life is lost, and the state
    has a best streak equal to the number of questions.  The result,
    however, records a best streak of one less (see X6). *)
Theorem perfect_run_completes w :
  items ≠ [] →
  (∀ it, it ∈ items → has_id it) →
  1 ≤ storedRepetitions →
  1 ≤ DifficultyConfig.lives (DIFFICULTY_CONFIG storedDifficulty) →
  let total := Z.of_nat (length items) * storedRepetitions in
  let k := length (inflight w) in
  let s := (run (OnStart :: replicate (Z.to_nat total) (OnSubmit true)
                   ++ [Settled k; Settled k])
              (w, initialState)).2 in
  phase s = results
  ∧ correctAnswers s = total ∧ wrongAnswers s = 0
  ∧ bestStreak s = total
  ∧ lives s = DifficultyConfig.lives (DIFFICULTY_CONFIG storedDifficulty)
  ∧ ∃ st, sessionStats s = Some st
          ∧ Stats.completed st = true
          ∧ Stats.correctAnswers st = total
          ∧ Stats.wrongAnswers st = 0
          ∧ Stats.livesLost st = 0
          ∧ Stats.questionsCompleted st = total
          ∧ Stats.bestStreak st = total - 1.
Proof.
  intros Hitems Hids Hreps Hcfg total.
  assert (Hlen : (0 < length items)%nat) by (destruct items; [done|cbn; lia]).
  assert (Htotal : 1 ≤ total) by (unfold total; nia).
  cbv zeta.
  replace (Z.to_nat total) with (S (Z.to_nat (total - 1))) by lia.
  rewrite replicate_S_end, <- app_assoc.
  rewrite run_cons, run_app. cbn [app]. rewrite run_cons.
  assert (Hstart : step OnStart (w, initialState)
                   = handleStart w initialState).
  { unfold step, screen. cbn [fst snd initialState phase].
    by destruct items. }
  rewrite Hstart.
  destruct (handleStart_state w initialState) as
    (Hp1 & Hq1 & Hi1 & Hl1 & Hm1 & _ & _ & Hc1 & Hw1 & Hs1 & Hb1 & Hg1 & _
     & _ & Hr1 & _ & Hf1).
  pose proof (generateQuestionQueue_length items
                (repetitions initialState) (random w)) as Hlen1.
  rewrite <- Hq1 in Hlen1.
  assert (Hids1 : ∀ q, q ∈ questionQueue (handleStart w initialState).2 →
                       has_id (item q)).
  { intros q Hq. rewrite Hq1 in Hq.
    apply generateQuestionQueue_items in Hq. by apply Hids. }
  destruct (handleStart w initialState) as [w1 s1].
  cbn [fst snd initialState repetitions difficulty] in *.
  assert (Hqlen : Z.of_nat (length (questionQueue s1)) = total).
  { rewrite Hlen1. unfold total. lia. }
  assert (Ht1 : totalQuestions s1 = total).
  { unfold totalQuestions. by rewrite Hr1. }
  destruct (correct_answers_advance (Z.to_nat (total - 1)) w1 s1) as
    (Kf & Kp & Kl & Km & Kr & Kq & Ki & Kc & Kw & Ks & Kb & Kg);
    try done; try lia.
  destruct (run (replicate (Z.to_nat (total - 1)) (OnSubmit true)) (w1, s1))
    as [wk sk].
  cbn [fst snd] in *.
  destruct (entry_is_Some (questionQueue sk) (currentIndex sk)) as [q Hq];
    [rewrite Kq, Ki; lia|].
  change (currentQuestion sk = Some q) in Hq.
  assert (Hin : q ∈ questionQueue s1).
  { unfold currentQuestion, entry in Hq. rewrite Kq in Hq.
    case_match; [done|]. by eapply list_elem_of_lookup_2. }
  destruct (has_id_Returned _ (Hids1 q Hin)) as [charId Hid].
  assert (Hscreen : screen sk = ActiveGame).
  { apply ActiveGame_intro; [done | done |].
    intros q' Hq'. rewrite Hq in Hq'. injection Hq' as <-. by apply Hids1. }
  rewrite (step_OnSubmit true wk sk Hscreen).
  assert (Htk : totalQuestions sk = total).
  { unfold totalQuestions. by rewrite Kr, Hr1. }
  clear Hstart.
  assert (Hanswer : ∃ stats,
    inflight (submitAnswer true wk sk).1 = inflight w ++ [Loading stats]
    ∧ sessionStats (submitAnswer true wk sk).2 = Some stats
    ∧ questionQueue (submitAnswer true wk sk).2 = questionQueue sk
    ∧ currentIndex (submitAnswer true wk sk).2 = currentIndex sk
    ∧ correctAnswers (submitAnswer true wk sk).2 = total
    ∧ wrongAnswers (submitAnswer true wk sk).2 = 0
    ∧ bestStreak (submitAnswer true wk sk).2 = total
    ∧ lives (submitAnswer true wk sk).2
      = DifficultyConfig.lives (DIFFICULTY_CONFIG storedDifficulty)
    ∧ Stats.completed stats = true
    ∧ Stats.correctAnswers stats = total
    ∧ Stats.wrongAnswers stats = 0
    ∧ Stats.livesLost stats = 0
    ∧ Stats.questionsCompleted stats = total
    ∧ Stats.bestStreak stats = total - 1).
  { open_submit wk sk. rewrite Hq, Hid.
    rewrite (proj2 (Z.leb_gt (lives sk) 0)) by lia.
    rewrite (proj2 (Z.leb_le (totalQuestions sk) (correctAnswers sk + 1)))
      by lia.
    rewrite (proj2 (Z.ltb_ge (lives sk) (maxLives sk))) by lia.
    rewrite andb_false_r.
    repeat case_match; simpl in *; bools;
      eexists; (split; [by rewrite Kf, Hf1|]);
      do 3 (split; [reflexivity|]);
      unfold endGame_stats; cbn; repeat split; lia. }
  destruct Hanswer as (stats & Hin' & Hstats & Hqueue & Hindex & Hrest).
  destruct (submitAnswer true wk sk) as [w2 s2]. cbn [fst snd] in *.
  destruct (last_save_settles w2 s2 stats (inflight w) Hin')
    as (w3 & newBest & -> & _).
  { apply (screen_not_RenderError sk); [done | done |]. by rewrite Hscreen. }
  cbn. destruct Hrest as (? & ? & ? & ? & ?).
  do 5 (split; [done|]). by exists stats.
Qed.

End PerfectRun.

(** ** Answer times *)

Section AnswerTimes.

Context {props : GauntletProps}.

Lemma foldl_min_le_max (t : Z) (ts : list Z) :
  foldl Z.min t ts ≤ foldl Z.max t ts.
Proof.
  assert (H : ∀ a b, a ≤ b → foldl Z.min a ts ≤ foldl Z.max b ts).
  { induction ts as [|x ts IH]; intros a b Hab; [done|]. cbn. apply IH. lia. }
  by apply H.
Qed.

Lemma foldl_min_pos (t : Z) (ts : list Z) :
  0 < t → Forall (λ x, 0 < x) ts → 0 < foldl Z.min t ts.
Proof.
  intros Ht Hts. induction Hts as [|x ts Hx Hts IH] in t, Ht |- *; [done|].
  cbn. apply IH. lia.
Qed.

Lemma endGame_stats_times c completed a1 a2 a3 a4 t1 t2 :
  let st := endGame_stats c completed a1 a2 a3 a4 t1 t2 in
  0 ≤ Stats.fastestAnswerMs st ≤ Stats.slowestAnswerMs st.
Proof.
  unfold endGame_stats. cbn.
  destruct (filter _ (answerTimes c)) as [|t ts] eqn:Hf; [lia|].
  assert (Hall : Forall (λ x, 0 < x) (t :: ts))
    by (rewrite <- Hf; apply Forall_forall; intros x Hx;
        by apply list_elem_of_filter in Hx as [? _]).
  apply Forall_cons in Hall as [Ht Hts].
  pose proof (foldl_min_pos t ts Ht Hts).
  pose proof (foldl_min_le_max t ts). lia.
Qed.

Lemma recordAnswerTime_times w s :
  Forall (λ t, 0 < t) (answerTimes s) →
  Forall (λ t, 0 < t) (answerTimes (recordAnswerTime w s).2).
Proof.
  intros H. unfold recordAnswerTime. cbv zeta.
  repeat case_match; bools; cbn; try done.
  apply Forall_app. split; [done|]. by apply Forall_singleton.
Qed.

Lemma submitAnswer_times_inv b w s :
  times_inv s → times_inv (submitAnswer b w s).2.
Proof.
  intros [Ht Hst]. pose proof (recordAnswerTime_times w s Ht) as Hrec.
  destruct (currentQuestion s) as [q|] eqn:Hq.
  2:{ by rewrite submitAnswer_ignored. }
  unfold times_inv, submitAnswer, advanceToNextQuestion, endGame. cbv zeta.
  rewrite Hq. revert Hrec.
  assert (Hsame : sessionStats (recordAnswerTime w s).2 = sessionStats s).
  { unfold recordAnswerTime. cbv zeta. by repeat case_match. }
  revert Hsame.
  generalize (recordAnswerTime w s).2, (recordAnswerTime w s).1.
  intros s1 w1 Hsame Hrec.
  repeat case_match; cbn; (split; [exact Hrec|]); rewrite ?Hsame;
    try exact Hst; intros st [= <-]; apply endGame_stats_times.
Qed.

Lemma step_times_inv e ws : times_inv ws.2 → times_inv (step e ws).2.
Proof.
  intros Hinv. destruct ws as [w s]. unfold step. cbn [fst snd] in *.
  destruct e, (screen s); try assumption;
    try (by apply submitAnswer_times_inv);
    unfold handleCancel; repeat case_match; try assumption;
    destruct Hinv as [Ht Hst]; (split; [by cbn|exact Hst]).
Qed.

Lemma run_times_inv events w : times_inv (run events (w, initialState)).2.
Proof.
  induction events as [|e events IH] using rev_ind.
  - split; [by cbn | intros st; discriminate].
  - rewrite run_snoc. by apply step_times_inv.
Qed.

(** X8.  Whatever the events since the first render and whatever the
    clock reads (it may stand still or go back), every recorded answer time
    is a positive number of milliseconds; and a result on record has
    [0 <= fastestAnswerMs <= slowestAnswerMs]. *)
Theorem answer_times_are_positive events w :
  let s := (run events (w, initialState)).2 in
  Forall (λ t, 0 < t) (answerTimes s)
  ∧ ∀ st, sessionStats s = Some st →
          0 ≤ Stats.fastestAnswerMs st ≤ Stats.slowestAnswerMs st.
Proof. apply run_times_inv. Qed.

End AnswerTimes.

(** ** The key of the question on screen *)

Section QuestionKey.

Context {props : GauntletProps}.

(** X9.  The copy that a wrong answer puts back keeps the [index] of the
    failed entry.  So when at most one entry is left after the cursor (and
    lives are left and the queue is below its cap), the question that
    follows the wrong answer is the same item under the same
    [questionKey]. *)
Theorem requeued_copy_keeps_question_key w s q :
  screen s = ActiveGame →
  currentQuestion s = Some q →
  1 < lives s →
  Z.of_nat (length (questionQueue s)) < 3 * totalQuestions s →
  Z.of_nat (length (questionQueue s)) ≤ currentIndex s + 2 →
  let s' := (step (OnSubmit false) (w, s)).2 in
  currentQuestion s' = Some q ∧ questionKey s' = questionKey s.
Proof.
  intros Hscreen Hq Hlives Hcap Hlast. cbv zeta.
  destruct (ActiveGame_has_id s q Hscreen Hq) as [charId Hid].
  rewrite (step_OnSubmit false w s Hscreen).
  pose proof (entry_Some _ _ _ Hq) as Hi.
  destruct (submitAnswer_wrong w s q charId Hq Hid Hlives) as
    (_ & _ & _ & _ & _ & _ & _ & _ & _ & Hidx & Hqueue & _).
  destruct (requeue_below_cap (currentIndex s) (totalQuestions s * 3)
              (questionQueue s) (random w) q) as [Hins Hoff]; [lia | done |].
  rewrite Hins in Hqueue. clear Hins.
  cbv zeta in Hoff.
  set (offset := if 0 <? _ then _ else 1) in *.
  assert (Hone : offset = 1) by lia.
  rewrite Hone in Hqueue.
  assert (Hcur : currentQuestion (submitAnswer false w s).2 = Some q).
  { unfold currentQuestion, entry. rewrite Hidx, Hqueue.
    rewrite (proj2 (Z.ltb_ge _ _)) by lia.
    rewrite lookup_app_r by (rewrite length_take; lia).
    rewrite length_take.
    replace (Z.to_nat (currentIndex s + 1)
             - Z.to_nat (currentIndex s + 1) `min` length (questionQueue s))%nat
      with 0%nat by lia.
    reflexivity. }
  split; [exact Hcur|]. unfold questionKey. by rewrite Hcur, Hq.
Qed.

End QuestionKey.

(** * Further properties of the statistics store *)

(** ** Loading and migrating *)

Lemma backfill_running_totals sessions d :
  at_dojo d (backfill sessions) = running_totals d (stats <$> sessions).
Proof.
  unfold backfill.
  induction sessions as [|session sessions IH] using rev_ind.
  { by destruct d. }
  rewrite foldl_app, fmap_app. cbn [foldl].
  change (stats <$> [session]) with [stats session].
  rewrite running_totals_snoc, at_dojo_update. by rewrite IH.
Qed.

(** X10.  Whatever sits in the store, what [loadData] returns has version 1,
    and saving it and loading again gives it back unchanged: a load changes
    nothing that a later load could see. *)
Theorem load_save_load stored :
  version (loadData stored) = 1
  ∧ loadData (saveData (loadData stored)) = loadData stored.
Proof.
  split; [apply loadData_version|].
  apply loadData_saveData, loadData_version.
Qed.

(** X11.  The migration of a blob of version 1 written without
    [lifetimeTotals]: the sessions and the best times are handed out as
    stored, and the totals of each dojo are the counts, sums and best
    streak over the stored sessions.  A blob of another version is
    replaced by the default data. *)
Theorem legacy_blob_is_backfilled blob :
  blob_lifetimeTotals blob = None →
  let data := loadData (Some blob) in
  (blob_version blob = 1 →
   sessions data = blob_sessions blob
   ∧ bestTimes data = blob_bestTimes blob
   ∧ ∀ d, at_dojo d (lifetimeTotals data)
          = running_totals d (stats <$> blob_sessions blob))
  ∧ (blob_version blob ≠ 1 → data = getDefaultData).
Proof.
  intros Hlegacy. cbv zeta. unfold loadData. rewrite Hlegacy. split.
  - intros ->. cbn. repeat split. intros d. apply backfill_running_totals.
  - intros Hv. by rewrite (proj2 (Z.eqb_neq _ _) Hv).
Qed.

(** ** One save *)

(** X12.  After [saveSession], a load finds the saved session, with its
    identifier, at the head of the sessions, followed by the sessions that
    were there, the whole cut to a hundred; and the totals of the session's
    dojo have grown by this session, those of the other dojos not at
    all. *)
Theorem saveSession_is_recorded sessionId s stored :
  let before := loadData stored in
  let after := loadData (saveSession sessionId s stored).1 in
  let totals d := at_dojo d (lifetimeTotals before) in
  let totals' d := at_dojo d (lifetimeTotals after) in
  sessions after = take 100 (mkSession sessionId s :: sessions before)
  ∧ head (sessions after) = Some (mkSession sessionId s)
  ∧ (length (sessions after) ≤ 100)%nat
  ∧ Totals.totalSessions (totals' (Stats.dojoType s))
    = Totals.totalSessions (totals (Stats.dojoType s)) + 1
  ∧ Totals.completedSessions (totals' (Stats.dojoType s))
    = Totals.completedSessions (totals (Stats.dojoType s))
      + (if Stats.completed s then 1 else 0)
  ∧ Totals.totalCorrect (totals' (Stats.dojoType s))
    = Totals.totalCorrect (totals (Stats.dojoType s)) + Stats.correctAnswers s
  ∧ Totals.totalWrong (totals' (Stats.dojoType s))
    = Totals.totalWrong (totals (Stats.dojoType s)) + Stats.wrongAnswers s
  ∧ Totals.bestStreak (totals' (Stats.dojoType s))
    = Z.max (Totals.bestStreak (totals (Stats.dojoType s)))
        (Stats.bestStreak s)
  ∧ ∀ d, d ≠ Stats.dojoType s → totals' d = totals d.
Proof.
  cbv zeta. unfold saveSession. cbv zeta. cbn [fst].
  rewrite loadData_saveData by apply loadData_version.
  cbn [sessions lifetimeTotals].
  set (before := loadData stored).
  assert (Hs : (if (100 <? length (mkSession sessionId s :: sessions before))%nat
                then take 100 (mkSession sessionId s :: sessions before)
                else mkSession sessionId s :: sessions before)
               = take 100 (mkSession sessionId s :: sessions before)).
  { case_match; [done|]. apply Nat.ltb_ge in H. symmetry. by apply take_ge. }
  rewrite Hs. split; [done|]. split; [done|].
  split; [rewrite length_take; lia|].
  rewrite at_dojo_update, decide_True by done. unfold accumulate.
  cbn. repeat split; try (destruct (Stats.completed s); lia).
  intros d Hd. by rewrite at_dojo_update, decide_False.
Qed.

(** X13.  What a save does to the best times, slot by slot.  The slot of
    the session's own dojo and key changes only for a completed run: it
    takes the run's time when it was empty, held 0, or held a greater
    time, and keeps its time otherwise.  Every other slot, and every slot
    after a run that was not completed, is as before. *)
Theorem saveSession_best_time sessionId s stored d key :
  let best stored := at_dojo d (bestTimes (loadData stored)) !! key in
  best (saveSession sessionId s stored).1
  = if decide (Stats.completed s = true ∧ d = Stats.dojoType s
               ∧ key = key_of s)
    then match best stored with
         | None => Some (Stats.totalTimeMs s)
         | Some b =>
             if decide (b = 0 ∨ Stats.totalTimeMs s < b)
             then Some (Stats.totalTimeMs s) else Some b
         end
    else best stored.
Proof.
  cbv zeta. unfold saveSession. cbv zeta. cbn [fst].
  rewrite loadData_saveData by apply loadData_version. cbn [bestTimes].
  fold (key_of s). set (data := loadData stored).
  destruct (Stats.completed s) eqn:Hc; cbn [andb].
  2:{ by rewrite decide_False by (intros (? & _); done). }
  destruct (decide (d = Stats.dojoType s ∧ key = key_of s)) as [[-> ->]|Hne].
  - rewrite decide_True by done.
    destruct (at_dojo _ (bestTimes data) !! key_of s) as [b|] eqn:Hb; cbn.
    + destruct (b =? 0) eqn:H0; bools; cbn.
      * rewrite decide_True by auto.
        by rewrite at_dojo_update, decide_True, lookup_insert_eq.
      * destruct (Stats.totalTimeMs s <? b) eqn:Hlt; bools.
        -- rewrite decide_True by auto.
           by rewrite at_dojo_update, decide_True, lookup_insert_eq.
        -- rewrite decide_False by lia. exact Hb.
    + by rewrite at_dojo_update, decide_True, lookup_insert_eq.
  - rewrite decide_False by (intros (_ & ? & ?); by apply Hne).
    case_match; [|done].
    rewrite at_dojo_update. case_decide as Hd; [|done].
    rewrite lookup_insert_ne; [done|]. intros Hk. apply Hne. by subst.
Qed.

(** ** Queries *)

Lemma slice0_sublist {A} (l : list A) end_ : slice0 l end_ `sublist_of` l.
Proof. apply sublist_take. Qed.

Lemma slice0_length {A} (l : list A) end_ :
  0 ≤ end_ → Z.of_nat (length (slice0 l end_)) = Z.min end_ (Z.of_nat (length l)).
Proof.
  intros H. unfold slice0. rewrite (proj2 (Z.ltb_ge _ _)) by lia.
  rewrite length_take. lia.
Qed.

(** X14.  [getSessionHistory] returns sessions of the dojo asked for only,
    in the order of the store (most recent first) and without inventing
    any; for a limit that is not negative, as many as the limit allows, and
    all of them when the limit is not reached. *)
Theorem getSessionHistory_is_recent_slice dojoType limit stored :
  let history := getSessionHistory dojoType limit stored in
  let mine := filter (λ s, Stats.dojoType (stats s) = dojoType)
                (sessions (loadData stored)) in
  history `sublist_of` sessions (loadData stored)
  ∧ Forall (λ s, Stats.dojoType (stats s) = dojoType) history
  ∧ (0 ≤ limit →
     Z.of_nat (length history) = Z.min limit (Z.of_nat (length mine))
     ∧ history = take (Z.to_nat limit) mine).
Proof.
  cbv zeta. unfold getSessionHistory.
  set (mine := filter _ _). split; [|split].
  - etrans; [apply slice0_sublist|]. apply sublist_filter.
  - apply Forall_forall. intros s Hs.
    eapply elem_of_sublist in Hs; [|apply slice0_sublist].
    by apply list_elem_of_filter in Hs as [? _].
  - intros Hlimit. split; [by apply slice0_length|].
    unfold slice0. rewrite (proj2 (Z.ltb_ge _ _)) by lia.
    destruct (decide (limit ≤ Z.of_nat (length mine))).
    + by rewrite Z.min_l.
    + rewrite Z.min_r, Nat2Z.id by lia. rewrite !take_ge; [done|lia|lia].
Qed.

Lemma insert_by_time_Permutation x l : insert_by_time x l ≡ₚ x :: l.
Proof.
  induction l as [|y l IH]; [done|]. cbn. case_match; [done|].
  by rewrite IH, Permutation_swap.
Qed.

Lemma sort_by_time_Permutation l : sort_by_time l ≡ₚ l.
Proof.
  induction l as [|x l IH]; [done|]. cbn.
  by rewrite insert_by_time_Permutation, IH.
Qed.

Lemma insert_by_time_sorted x l :
  StronglySorted faster_or_equal l →
  StronglySorted faster_or_equal (insert_by_time x l).
Proof.
  induction 1 as [|y l Hl IH Hy]; [by repeat constructor|].
  cbn. destruct (_ <=? _) eqn:Hle; bools.
  - constructor; [by constructor|]. constructor; [done|].
    eapply Forall_impl; [exact Hy|]. unfold faster_or_equal. intros; lia.
  - constructor; [done|].
    rewrite insert_by_time_Permutation. constructor; [|done].
    unfold faster_or_equal. lia.
Qed.

Lemma sort_by_time_sorted l : StronglySorted faster_or_equal (sort_by_time l).
Proof.
  induction l as [|x l IH]; [constructor|]. by apply insert_by_time_sorted.
Qed.

Lemma StronglySorted_sublist {A} (R : relation A) l k :
  l `sublist_of` k → StronglySorted R k → StronglySorted R l.
Proof.
  induction 1 as [|x l k Hlk IH|x l k Hlk IH]; intros Hk; [done|..].
  - apply StronglySorted_inv in Hk as [Hk Hx]. constructor; [by apply IH|].
    eapply Forall_forall. intros y Hy. eapply Forall_forall in Hx; [done|].
    by eapply elem_of_sublist.
  - apply StronglySorted_inv in Hk as [Hk _]. by apply IH.
Qed.

Lemma leaderboard_candidates dojoType difficulty stored s :
  s ∈ (let sessions :=
         filter (λ s, Stats.dojoType (stats s) = dojoType
                      ∧ Stats.completed (stats s) = true)
           (sessions (loadData stored)) in
       match difficulty with
       | Some d =>
           if decide (d = "") then sessions
           else filter (λ s, Stats.difficulty (stats s) = d) sessions
       | None => sessions
       end)
  ↔ s ∈ sessions (loadData stored) ∧ ranked dojoType difficulty s.
Proof.
  cbv zeta. unfold ranked. destruct difficulty as [d|].
  - case_decide.
    + rewrite list_elem_of_filter. tauto.
    + rewrite !list_elem_of_filter. tauto.
  - rewrite list_elem_of_filter. tauto.
Qed.

(** X15.  [getLeaderboard] returns completed sessions of the dojo (and of
    the difficulty, when one is given) that are in the store, fastest
    first; for a limit that is not negative, no more than the limit; and
    when the limit is at least 1, no ranked session of the store is faster
    than the first. *)
Theorem getLeaderboard_is_sorted dojoType difficulty limit stored :
  let board := getLeaderboard dojoType difficulty limit stored in
  StronglySorted faster_or_equal board
  ∧ Forall (λ s, s ∈ sessions (loadData stored)
                 ∧ ranked dojoType difficulty s) board
  ∧ (0 ≤ limit → Z.of_nat (length board) ≤ limit)
  ∧ (1 ≤ limit →
     ∀ s, s ∈ sessions (loadData stored) → ranked dojoType difficulty s →
          ∃ top, head board = Some top ∧ faster_or_equal top s).
Proof.
  cbv zeta. unfold getLeaderboard. cbv zeta.
  pose proof (leaderboard_candidates dojoType difficulty stored) as Hcand.
  cbv zeta in Hcand.
  match goal with
  | |- context [sort_by_time ?c] => set (candidates := c) in *
  end.
  split; [|split; [|split]].
  - eapply StronglySorted_sublist; [apply slice0_sublist|].
    apply sort_by_time_sorted.
  - apply Forall_forall. intros s Hs. apply Hcand.
    eapply elem_of_sublist in Hs; [|apply slice0_sublist].
    by rewrite sort_by_time_Permutation in Hs.
  - intros Hlimit. rewrite slice0_length by done. lia.
  - intros Hlimit s Hs Hranked.
    assert (Hin : s ∈ sort_by_time candidates)
      by (rewrite sort_by_time_Permutation; by apply Hcand).
    pose proof (sort_by_time_sorted candidates) as Hsorted.
    unfold slice0. rewrite (proj2 (Z.ltb_ge _ _)) by lia.
    destruct (sort_by_time candidates) as [|top rest];
      [by apply elem_of_nil in Hin|].
    exists top. split.
    + cbn [length]. 
      replace (Z.to_nat (Z.min limit (Z.of_nat (S (length rest)))))
        with (S (Z.to_nat (Z.min limit (Z.of_nat (S (length rest))) - 1)))
        by lia.
      reflexivity.
    + apply StronglySorted_inv in Hsorted as [_ Htop].
      apply elem_of_cons in Hin as [->|Hin]; [unfold faster_or_equal; lia|].
      by eapply Forall_forall in Htop.
Qed.

Lemma insert_by_time_stable (t : Z) x l :
  filter (λ s, Stats.totalTimeMs (stats s) = t) (insert_by_time x l)
  = filter (λ s, Stats.totalTimeMs (stats s) = t) (x :: l).
Proof.
  induction l as [|y l IH]; [done|]. cbn [insert_by_time].
  destruct (_ <=? _) eqn:Hle; bools; [done|].
  rewrite (filter_cons _ y), IH, !(filter_cons _ x), (filter_cons _ y).
  repeat case_decide; try done; lia.
Qed.

Lemma sort_by_time_stable (t : Z) l :
  filter (λ s, Stats.totalTimeMs (stats s) = t) (sort_by_time l)
  = filter (λ s, Stats.totalTimeMs (stats s) = t) l.
Proof.
  induction l as [|x l IH]; [done|]. cbn [sort_by_time foldr].
  change (foldr insert_by_time [] l) with (sort_by_time l).
  by rewrite insert_by_time_stable, !filter_cons, IH.
Qed.

(** X16.  Ties on the leaderboard: when the limit does not cut the board,
    the sessions of one same time appear in the order of the store (most
    recent first), and each ranked session of that time appears. *)
Theorem getLeaderboard_keeps_order_of_ties dojoType limit stored (t : Z) :
  Z.of_nat (length (sessions (loadData stored))) ≤ limit →
  filter (λ s, Stats.totalTimeMs (stats s) = t)
    (getLeaderboard dojoType None limit stored)
  = filter (λ s, Stats.totalTimeMs (stats s) = t)
      (filter (λ s, Stats.dojoType (stats s) = dojoType
                    ∧ Stats.completed (stats s) = true)
         (sessions (loadData stored))).
Proof.
  intros Hlimit. unfold getLeaderboard. cbv zeta.
  set (candidates := filter _ (sessions _)).
  assert (Hlen : (length candidates ≤ length (sessions (loadData stored)))%nat)
    by apply length_filter.
  unfold slice0. rewrite (proj2 (Z.ltb_ge _ _)) by lia.
  rewrite take_ge.
  2:{ rewrite sort_by_time_Permutation. lia. }
  apply sort_by_time_stable.
Qed.

Lemma foldr_min_is_least (t : Z) (ts : list Z) :
  foldr Z.min t ts ∈ t :: ts ∧ Forall (λ x, foldr Z.min t ts ≤ x) (t :: ts).
Proof.
  induction ts as [|x ts [IHin IHle]].
  { split; [left | by constructor]. }
  cbn [foldr]. apply Forall_cons in IHle as [IHt IHts]. split.
  - destruct (Z.min_spec x (foldr Z.min t ts)) as [[_ ->]|[_ ->]].
    + right. left.
    + apply elem_of_cons in IHin as [->|Hin]; [left|right; right; done].
  - constructor; [lia|]. constructor; [lia|].
    eapply Forall_impl; [exact IHts|]. intros; simpl in *; lia.
Qed.

(** X17.  [getOverallStats] reports the lifetime totals of the dojo, and as
    fastest time the time at the top of the dojo's leaderboard: the least
    time among the completed sessions of the dojo still in the store, and
    nothing when there is none. *)
Theorem getOverallStats_fastest_is_leaderboard_top dojoType stored :
  (getOverallStats dojoType stored).1
  = at_dojo dojoType (lifetimeTotals (loadData stored))
  ∧ (getOverallStats dojoType stored).2
    = (λ s, Stats.totalTimeMs (stats s))
        <$> head (getLeaderboard dojoType None 1 stored).
Proof.
  split; [done|]. unfold getOverallStats, getLeaderboard. cbv zeta. cbn [snd].
  set (candidates := filter _ (sessions _)).
  pose proof (sort_by_time_sorted candidates) as Hsorted.
  pose proof (sort_by_time_Permutation candidates) as Hperm.
  unfold slice0. change (1 <? 0) with false. cbv iota.
  destruct candidates as [|s rest].
  { reflexivity. }
  destruct (sort_by_time (s :: rest)) as [|top others] eqn:Hsort.
  { by apply Permutation_nil_l in Hperm. }
  replace (Z.to_nat (Z.min 1 (Z.of_nat (length (top :: others)))))
    with 1%nat by (cbn [length]; lia).
  cbn [take head fmap option_fmap option_map]. f_equal.
  set (time := λ s : Session, Stats.totalTimeMs (stats s)).
  destruct (foldr_min_is_least (time s) (time <$> rest)) as [Hin Hle].
  apply StronglySorted_inv in Hsorted as [_ Htop].
  change (time s :: (time <$> rest)) with (time <$> (s :: rest)) in Hin, Hle.
  change (foldr Z.min (time s) (time <$> rest) = time top).
  apply Z.le_antisymm.
  - rewrite Forall_fmap, <- Hperm in Hle.
    by apply Forall_cons in Hle as [Hle _].
  - apply list_elem_of_fmap in Hin as (x & Hx & Hmem). rewrite Hx.
    rewrite <- Hperm in Hmem.
    apply elem_of_cons in Hmem as [->|Hmem]; [done|].
    by eapply Forall_forall in Htop.
Qed.

(** * Properties of the kanji configuration *)

Module GauntletKanjiProperties.
Import GauntletKanji.

Lemma filter_unseen_sublist {A} (text : A → option string) seen (l : list A) :
  filter_unseen text seen l `sublist_of` l.
Proof.
  induction l as [|x l IH] in seen |- *; [done|]. cbn.
  case_decide; [by apply sublist_cons | by apply sublist_skip].
Qed.

Lemma filter_unseen_fresh {A} (text : A → option string) seen (l : list A) x :
  x ∈ filter_unseen text seen l → text x ∉ seen.
Proof.
  induction l as [|y l IH] in seen |- *; cbn; [by intros ?%elem_of_nil|].
  case_decide as Hseen; [by apply IH|].
  intros [->|Hx]%elem_of_cons; [done|].
  apply IH in Hx. intros ?. apply Hx. by right.
Qed.

Lemma filter_unseen_NoDup {A} (text : A → option string) seen (l : list A) :
  NoDup (text <$> filter_unseen text seen l).
Proof.
  induction l as [|y l IH] in seen |- *; cbn; [constructor|].
  case_decide as Hseen; [by apply IH|].
  cbn. constructor; [|by apply IH].
  intros (x & Hx & Hin)%list_elem_of_fmap.
  apply filter_unseen_fresh in Hin. apply Hin. rewrite Hx. by left.
Qed.

(** X18.  The options that [generateOptions] offers, however [shuffle]
    orders the items: the first is the correct option; no option occurs
    twice; for a count of at least 1 there are no more than the count; and
    if [shuffle] returns items it was given, every other option is the text
    of an item whose kanji is not the one asked. *)
Theorem generateOptions_are_distinct shuffle question items count isReverse :
  let options := generateOptions shuffle question items count isReverse in
  let text item :=
    if isReverse then Some (kanjiChar item) else head (meanings item) in
  head options = Some (getCorrectOption question isReverse)
  ∧ NoDup options
  ∧ (1 ≤ count → Z.of_nat (length options) ≤ count)
  ∧ ((∀ l item, item ∈ shuffle l → item ∈ l) →
     ∀ option, option ∈ tail options →
       ∃ item, item ∈ items ∧ kanjiChar item ≠ kanjiChar question
               ∧ text item = option).
Proof.
  cbv zeta. unfold generateOptions, getCorrectOption. cbv zeta.
  set (text := if isReverse then _ else _).
  assert (Htext : ∀ item, text item
            = if isReverse then Some (kanjiChar item)
              else head (meanings item))
    by (intros item; unfold text; by destruct isReverse).
  set (others := filter_unseen text [text question] _).
  assert (Hsub : slice0 others (count - 1) `sublist_of` others)
    by apply slice0_sublist.
  split; [by rewrite Htext|]. split; [|split].
  - constructor.
    + intros (x & Hx & Hin)%list_elem_of_fmap.
      eapply elem_of_sublist in Hin; [|exact Hsub].
      apply filter_unseen_fresh in Hin. apply Hin. rewrite Hx. by left.
    + eapply sublist_NoDup; [apply (filter_unseen_NoDup text)|].
      apply fmap_sublist, Hsub.
  - intros Hcount. cbn [length]. rewrite length_fmap.
    pose proof (slice0_length others (count - 1) ltac:(lia)). lia.
  - intros Hshuffle option. cbn [tail].
    intros (item & -> & Hin)%list_elem_of_fmap.
    eapply elem_of_sublist in Hin; [|exact Hsub].
    eapply elem_of_sublist in Hin; [|apply filter_unseen_sublist].
    apply Hshuffle, list_elem_of_filter in Hin as [Hne Hin].
    exists item. by rewrite <- Htext.
Qed.

(** X19.  The answer that the configuration gives as correct is accepted by
    its own [checkAnswer]: in normal mode the first meaning, whenever there
    is one; in reverse mode the kanji itself, provided [trim] leaves it as
    it is. *)
Theorem correct_answer_is_accepted toLowerCase trim first_word question
    isReverse answer :
  getCorrectAnswer question isReverse = Some answer →
  (isReverse = true → trim answer = answer) →
  checkAnswer toLowerCase trim first_word question answer isReverse = true.
Proof.
  unfold getCorrectAnswer, checkAnswer. destruct isReverse.
  - intros [= <-] Htrim. rewrite Htrim by done.
    by rewrite bool_decide_eq_true_2.
  - intros Hhead _. destruct (meanings question) as [|m ms]; [done|].
    injection Hhead as ->. cbn. by rewrite bool_decide_eq_true_2.
Qed.

End GauntletKanjiProperties.

(** * The further properties at concrete inputs *)

Lemma calculateRegenThreshold_exact_witness :
  (0 : Z) ≤ 137 < 2 ^ 53 ∧ calculateRegenThreshold 137 = 14.
Proof.
  assert (H : (0 : Z) ≤ 137 < 2 ^ 53) by (split; [lia | reflexivity]).
  split; [exact H|].
  exact (calculateRegenThreshold_exact 137 H).
Defined.

Lemma cursor_and_queue_bookkeeping_witness :
  let props := kana_props abc in
  let ws := run [OnStart; OnSubmit false] (some_world, initialState) in
  inflight some_world = []
  ∧ screen ws.2 = ActiveGame
  ∧ inflight ws.1 = []
  ∧ currentIndex ws.2 = correctAnswers ws.2 + wrongAnswers ws.2
  ∧ Z.of_nat (length (questionQueue ws.2))
    = Z.max 0 (Z.min (totalQuestions ws.2 + wrongAnswers ws.2)
                 (3 * totalQuestions ws.2))
  ∧ (0 < totalQuestions ws.2 → wrongAnswers ws.2 ≤ 2 * totalQuestions ws.2 →
     is_Some (currentQuestion ws.2)).
Proof.
  cbv zeta.
  split; [reflexivity|]. split; [vm_compute; reflexivity|].
  split; [vm_compute; reflexivity|].
  exact (cursor_and_queue_bookkeeping (props := kana_props abc)
           [OnStart; OnSubmit false] some_world eq_refl
           ltac:(vm_compute; reflexivity) ltac:(vm_compute; reflexivity)).
Defined.

Lemma last_life_lost_ends_session_witness :
  let props := kana_props abc in
  let s := abc_state 1 abc_queue in
  screen s = ActiveGame
  ∧ currentQuestion s = Some (mkQuestion (JsString "a") 0 1)
  ∧ lives s ≤ 1
  ∧ phase (run [OnSubmit false; Settled 0; Settled 0] (some_world, s)).2
    = results.
Proof.
  cbv zeta. split; [reflexivity|]. split; [reflexivity|].
  split; [vm_compute; discriminate|].
  exact (proj1 (last_life_lost_ends_session (props := kana_props abc)
                  some_world (abc_state 1 abc_queue)
                  (mkQuestion (JsString "a") 0 1) eq_refl eq_refl
                  ltac:(vm_compute; discriminate))).
Defined.

Lemma final_answer_missing_from_result_witness :
  let props := kana_props [JsString "a"] in
  let q := mkQuestion (JsString "a") 0 1 in
  let s := abc_state 3 [q] in
  screen s = ActiveGame
  ∧ currentQuestion s = Some q
  ∧ 0 < lives s
  ∧ totalQuestions s ≤ correctAnswers s + 1
  ∧ phase (run [OnSubmit true; Settled 0; Settled 0] (some_world, s)).2
    = results.
Proof.
  cbv zeta. split; [reflexivity|]. split; [reflexivity|].
  split; [reflexivity|]. split; [vm_compute; discriminate|].
  exact (proj1 (final_answer_missing_from_result
                  (props := kana_props [JsString "a"]) some_world
                  (abc_state 3 [mkQuestion (JsString "a") 0 1])
                  (mkQuestion (JsString "a") 0 1) eq_refl eq_refl eq_refl
                  ltac:(vm_compute; discriminate))).
Defined.

Lemma perfect_run_completes_witness :
  let props := kana_props abc in
  items ≠ []
  ∧ Forall has_id items
  ∧ 1 ≤ storedRepetitions
  ∧ 1 ≤ DifficultyConfig.lives (DIFFICULTY_CONFIG storedDifficulty)
  ∧ phase (run (OnStart :: replicate 3 (OnSubmit true)
                  ++ [Settled 0; Settled 0])
             (some_world, initialState)).2 = results.
Proof.
  cbv zeta.
  assert (H1 : items (GauntletProps := kana_props abc) ≠ []) by discriminate.
  assert (H2 : Forall has_id (items (GauntletProps := kana_props abc)))
    by (repeat constructor).
  split; [exact H1|]. split; [exact H2|]. split; [reflexivity|].
  split; [vm_compute; discriminate|].
  exact (proj1 (perfect_run_completes (props := kana_props abc) some_world
                  H1 (λ it Hit, proj1 (Forall_forall _ _) H2 it Hit)
                  ltac:(reflexivity) ltac:(vm_compute; discriminate))).
Defined.

Lemma requeued_copy_keeps_question_key_witness :
  let props := kana_props abc in
  let q := mkQuestion (JsString "a") 0 1 in
  let s := abc_state 3 (take 2 abc_queue) in
  screen s = ActiveGame
  ∧ currentQuestion s = Some q
  ∧ 1 < lives s
  ∧ questionKey (step (OnSubmit false) (some_world, s)).2 = questionKey s.
Proof.
  cbv zeta. split; [reflexivity|]. split; [reflexivity|].
  split; [reflexivity|].
  exact (proj2 (requeued_copy_keeps_question_key (props := kana_props abc)
                  some_world (abc_state 3 (take 2 abc_queue))
                  (mkQuestion (JsString "a") 0 1) eq_refl eq_refl eq_refl
                  eq_refl ltac:(vm_compute; discriminate))).
Defined.

Lemma legacy_blob_is_backfilled_witness :
  blob_lifetimeTotals legacy_blob = None
  ∧ sessions (loadData (Some legacy_blob)) = blob_sessions legacy_blob.
Proof.
  split; [reflexivity|].
  exact (proj1 (proj1 (legacy_blob_is_backfilled legacy_blob eq_refl)
                  eq_refl)).
Defined.

Lemma getLeaderboard_keeps_order_of_ties_witness :
  let stored := saveAll two_runs None in
  Z.of_nat (length (sessions (loadData stored))) ≤ 10
  ∧ filter (λ s, Stats.totalTimeMs (stats s) = 5)
      (getLeaderboard kana None 10 stored)
    = filter (λ s, Stats.totalTimeMs (stats s) = 5)
        (filter (λ s, Stats.dojoType (stats s) = kana
                      ∧ Stats.completed (stats s) = true)
           (sessions (loadData stored))).
Proof.
  cbv zeta.
  assert (H : Z.of_nat (length (sessions (loadData (saveAll two_runs None))))
              ≤ 10) by (vm_compute; discriminate).
  split; [exact H|].
  exact (getLeaderboard_keeps_order_of_ties kana 10 (saveAll two_runs None)
           5 H).
Defined.

Lemma best_time_is_fastest_nonzero_witness :
  (∀ s, s ∈ two_runs.*2 → Stats.completed s = true →
        Stats.totalTimeMs s ≠ 0)
  ∧ at_dojo kana (bestTimes (loadData (saveAll two_runs None)))
      !! key_of (kana_run 5)
    = fastest kana (key_of (kana_run 5)) two_runs.*2.
Proof.
  assert (H : ∀ s, s ∈ two_runs.*2 → Stats.completed s = true →
                   Stats.totalTimeMs s ≠ 0).
  { intros s Hs _. cbn in Hs.
    apply elem_of_cons in Hs as [->|Hs]; [discriminate|].
    apply elem_of_cons in Hs as [->|Hs]; [discriminate|].
    by apply elem_of_nil in Hs. }
  split; [exact H|].
  exact (best_time_is_fastest_nonzero two_runs kana (key_of (kana_run 5)) H).
Defined.

Lemma correct_answer_is_accepted_witness :
  GauntletKanji.getCorrectAnswer sun false = Some "sun"
  ∧ GauntletKanji.checkAnswer (λ x, x) (λ x, x) (λ x, x) sun "sun" false
    = true.
Proof.
  split; [reflexivity|].
  exact (GauntletKanjiProperties.correct_answer_is_accepted
           (λ x, x) (λ x, x) (λ x, x) sun false "sun" eq_refl
           (λ H, eq_refl)).
Defined.

Lemma generateQuestionQueue_is_numbered_permutation_witness :
  match (generateQuestionQueue abc 2 (λ n, n)).1 !! 4%nat with
  | Some q => index q = 4
  | None => False
  end.
Proof.
  destruct ((generateQuestionQueue abc 2 (λ n, n)).1 !! 4%nat) as [q|] eqn:Hq.
  - exact (proj2 (proj2 (generateQuestionQueue_is_numbered_permutation
                           abc 2 (λ n, n))) 4%nat q Hq).
  - vm_compute in Hq. discriminate.
Defined.

Lemma answer_times_are_positive_witness :
  let props := kana_props [JsString "a"] in
  match sessionStats
          (run [OnStart; OnSubmit false; OnSubmit true]
             (some_world, initialState)).2
  with
  | Some st => 0 ≤ Stats.fastestAnswerMs st ≤ Stats.slowestAnswerMs st
  | None => False
  end.
Proof.
  cbv zeta.
  destruct (sessionStats
              (run (props := kana_props [JsString "a"])
                 [OnStart; OnSubmit false; OnSubmit true]
                 (some_world, initialState)).2) as [st|] eqn:Hst.
  - exact (proj2 (answer_times_are_positive
                    (props := kana_props [JsString "a"])
                    [OnStart; OnSubmit false; OnSubmit true] some_world)
             st Hst).
  - vm_compute in Hst. discriminate.
Defined.

Lemma saveSession_is_recorded_witness :
  let stored := saveAll two_runs None in
  let after := (saveSession "gauntlet-3-ccccccc" (kana_run 9) stored).1 in
  kanji ≠ Stats.dojoType (kana_run 9)
  ∧ at_dojo kanji (lifetimeTotals (loadData after))
    = at_dojo kanji (lifetimeTotals (loadData stored)).
Proof.
  cbv zeta.
  assert (H : kanji ≠ Stats.dojoType (kana_run 9)) by discriminate.
  split; [exact H|].
  destruct (saveSession_is_recorded "gauntlet-3-ccccccc" (kana_run 9)
              (saveAll two_runs None))
    as (_ & _ & _ & _ & _ & _ & _ & _ & Hothers).
  exact (Hothers kanji H).
Defined.

Lemma getSessionHistory_is_recent_slice_witness :
  let stored := saveAll two_runs None in
  0 ≤ 1
  ∧ getSessionHistory kana 1 stored
    = take 1 (filter (λ s, Stats.dojoType (stats s) = kana)
                (sessions (loadData stored))).
Proof.
  cbv zeta.
  assert (H : 0 ≤ 1) by lia.
  split; [exact H|].
  exact (proj2 (proj2 (proj2 (getSessionHistory_is_recent_slice kana 1
                                (saveAll two_runs None))) H)).
Defined.

Lemma getLeaderboard_is_sorted_witness :
  let stored := saveAll two_runs None in
  let slow := mkSession "gauntlet-1-aaaaaaa" (kana_run 7) in
  1 ≤ 1
  ∧ slow ∈ sessions (loadData stored)
  ∧ ranked kana None slow
  ∧ ∃ top, head (getLeaderboard kana None 1 stored) = Some top
           ∧ faster_or_equal top slow.
Proof.
  cbv zeta.
  assert (H : 1 ≤ 1) by lia.
  assert (Hin : mkSession "gauntlet-1-aaaaaaa" (kana_run 7)
                ∈ sessions (loadData (saveAll two_runs None)))
    by (apply list_elem_of_lookup_2 with 1%nat; reflexivity).
  assert (Hranked : ranked kana None
                      (mkSession "gauntlet-1-aaaaaaa" (kana_run 7)))
    by (split; [reflexivity|]; split; [reflexivity|exact I]).
  split; [exact H|]. split; [exact Hin|]. split; [exact Hranked|].
  exact (proj2 (proj2 (proj2 (getLeaderboard_is_sorted kana None 1
                                (saveAll two_runs None))))
           H _ Hin Hranked).
Defined.

Lemma generateOptions_are_distinct_witness :
  let moon := GauntletKanji.mkKanji "tsuki" ["moon"; "month"] [] [] in
  let options :=
    GauntletKanji.generateOptions (λ l, l) sun [sun; moon] 2 false in
  1 ≤ 2
  ∧ (∀ (l : list GauntletKanji.IKanjiObj) item, item ∈ l → item ∈ l)
  ∧ Some "moon" ∈ tail options
  ∧ Z.of_nat (length options) ≤ 2
  ∧ ∃ item, item ∈ [sun; moon]
            ∧ GauntletKanji.kanjiChar item ≠ GauntletKanji.kanjiChar sun
            ∧ head (GauntletKanji.meanings item) = Some "moon".
Proof.
  cbv zeta.
  set (moon := GauntletKanji.mkKanji "tsuki" ["moon"; "month"] [] []).
  assert (H : 1 ≤ 2) by lia.
  assert (Hshuffle : ∀ (l : list GauntletKanji.IKanjiObj) item,
                       item ∈ l → item ∈ l) by (intros l item Hin; exact Hin).
  assert (Hin : Some "moon"
                ∈ tail (GauntletKanji.generateOptions (λ l, l) sun
                          [sun; moon] 2 false))
    by (apply list_elem_of_lookup_2 with 0%nat; reflexivity).
  split; [exact H|]. split; [exact Hshuffle|]. split; [exact Hin|].
  destruct (GauntletKanjiProperties.generateOptions_are_distinct
              (λ l, l) sun [sun; moon] 2 false)
    as (_ & _ & Hcount & Hothers).
  split; [exact (Hcount H)|].
  exact (Hothers Hshuffle (Some "moon") Hin).
Defined.
